(** * go-simple-tcp-server: the connection handler and the admission gate

    A shallow embedding of [main.go]: the line protocol of
    [handleConnection], the semaphore channel used by [acceptConns], and
    the interleaving of the accept loop with the handlers.

    Go strings are byte sequences and are modelled by [string] (a list of
    8-bit [ascii]); Go's [int] is taken to be 64 bits wide ([intSize]) and
    is modelled by [Z]; the dedup set is a [gset Z]. *)

From Stdlib Require Import ZArith String Ascii List Bool Lia DecimalString.
From Stdlib Require DecimalPos DecimalZ.
From stdpp Require Import base decidable strings sets gmap.
Import ListNotations.

Local Open Scope string_scope.
Local Open Scope Z_scope.

(** ** Constants of [main.go] *)

Definition connLimit : nat := 6.
Definition validLen : Z := 10.
Definition minValue : Z := 1000000.

(** The newline byte. *)
Definition nl : ascii := "010"%char.
Definition nlStr : string := String nl EmptyString.

(** [len(s)] *)
Definition len (s : string) : Z := Z.of_nat (String.length s).

(** ** [strconv.Atoi] and [fmt]'s [%d] (Go standard library) *)

Module strconv.

Inductive NumError := ErrSyntax | ErrRange.

Definition intSize : Z := 64.

(** [ch -= '0'] on a [byte]: the subtraction wraps around modulo 256. *)
Definition subByte (a b : ascii) : Z :=
  (Z.of_nat (nat_of_ascii a) - Z.of_nat (nat_of_ascii b)) mod 256.

Definition isSign (ch : ascii) : bool :=
  (ch =? "-")%char || (ch =? "+")%char.

(** The loop of the fast path: every byte must be a decimal digit. *)
Fixpoint fastDigits (s : string) (n : Z) : option Z :=
  match s with
  | EmptyString => Some n
  | String ch rest =>
      let d := subByte ch "0" in
      if 9 <? d then None else fastDigits rest (n * 10 + d)
  end.

(** The fast path of [Atoi]: an optional sign, then digits only. *)
Definition fastPath (s : string) : NumError + Z :=
  match s with
  | EmptyString => inl ErrSyntax
  | String s0 rest =>
      let convert digits :=
        match fastDigits digits 0 with
        | None => inl ErrSyntax
        | Some n => inr (if (s0 =? "-")%char then - n else n)
        end in
      if isSign s0
      then if len rest <? 1 then inl ErrSyntax else convert rest
      else convert s
  end.

Definition maxUint64 : Z := 2 ^ 64 - 1.

(** [ParseUint(s, 10, 64)] after its empty-string test. *)
Fixpoint parseUintLoop (s : string) (n : Z) : NumError + Z :=
  match s with
  | EmptyString => inr n
  | String c rest =>
      let d := subByte c "0" in
      if 9 <? d then inl ErrSyntax
      else if maxUint64 / 10 + 1 <=? n then inl ErrRange
      else
        let n10 := n * 10 in
        let n1 := (n10 + d) mod 2 ^ 64 in
        if (n1 <? n10) || (maxUint64 <? n1) then inl ErrRange
        else parseUintLoop rest n1
  end.

Definition ParseUint (s : string) : NumError + Z :=
  match s with
  | EmptyString => inl ErrSyntax
  | _ => parseUintLoop s 0
  end.

(** [ParseInt(s, 10, 0)]; the value returned with a range error is not
    used by any caller in this program. *)
Definition ParseInt (s : string) : NumError + Z :=
  match s with
  | EmptyString => inl ErrSyntax
  | String s0 rest =>
      let neg := (s0 =? "-")%char in
      let digits := if isSign s0 then rest else s in
      match ParseUint digits with
      | inl e => inl e
      | inr un =>
          let cutoff := 2 ^ (intSize - 1) in
          if negb neg && (cutoff <=? un) then inl ErrRange
          else if neg && (cutoff <? un) then inl ErrRange
          else inr (if neg then - un else un)
      end
  end.

Definition Atoi (s : string) : NumError + Z :=
  let sLen := len s in
  if (intSize =? 32) && ((0 <? sLen) && (sLen <? 10))
     || (intSize =? 64) && ((0 <? sLen) && (sLen <? 19))
  then fastPath s
  else ParseInt s.

End strconv.

(** [%d] *)
Definition fmtInt (z : Z) : string := NilZero.string_of_int (Z.to_int z).

(** ** The responses written by [handleConnection] *)

Definition errLength (got : Z) : string :=
  "ERR Malformed Request: expected length " +:+ fmtInt validLen
    +:+ ", got " +:+ fmtInt got +:+ "." +:+ nlStr.

Definition errNumber : string :=
  "ERR Malformed Request: expected number" +:+ nlStr.

Definition errRange : string :=
  "ERR Malformed Request: expected number greater than "
    +:+ fmtInt minValue +:+ nlStr.

Definition echo (num : Z) : string := fmtInt num +:+ nlStr.

Definition busy : string := "Server busy.".

(** ** The connection as the handler reads it *)

(** How the byte stream of a client ends: cleanly ([io.EOF]) or with any
    other error, whose text is kept. *)
Inductive ReadErr :=
| EOF
| ReadFault (msg : string).

(** What a client sends before its stream ends. *)
Record Conn := mkConn { sent : string; ending : ReadErr }.

(** The bytes up to and including the first [delim], when there is one. *)
Fixpoint upTo (delim : ascii) (s : string) : option string :=
  match s with
  | EmptyString => None
  | String ch rest =>
      if (ch =? delim)%char then Some (String ch EmptyString)
      else option_map (String ch) (upTo delim rest)
  end.

(** [bufio.Reader.ReadString]: the data up to and including the delimiter;
    when the stream ends first, the data read so far with the error. *)
Definition ReadString (delim : ascii) (conn : Conn) : string * option ReadErr :=
  match upTo delim (sent conn) with
  | Some line => (line, None)
  | None => (sent conn, Some (ending conn))
  end.

(** ** Buffered channels, as far as the semaphore needs them *)

Record Chan := mkChan { buf : list Z; cap : nat }.

(** [select { case ch <- v: ... default: ... }]: the send goes through
    when the buffer has room, and the [default] branch runs otherwise. *)
Definition trySend (v : Z) (ch : Chan) : option Chan :=
  if (length (buf ch) <? cap ch)%nat
  then Some {| buf := buf ch ++ [v]; cap := cap ch |}
  else None.

(** [<-ch]: takes the oldest value; on an empty buffer the receiver
    blocks ([None]). *)
Definition recv (ch : Chan) : option (Z * Chan) :=
  match buf ch with
  | [] => None
  | v :: rest => Some (v, {| buf := rest; cap := cap ch |})
  end.

(** ** The shared counter *)

(** Modelled from the spec: the [Counter] type of the repository (its
    fields other than [Sem], and [NewCounter], [Inc], [HasValue],
    [RecordUniq]) is declared outside [main.go].  The state follows the
    spec's data model: the admission gate, the two running totals, the
    dedup set, and the log of unique values. *)
Record Counter := mkCounter {
  Sem : Chan;
  totalValid : Z;
  intervalValid : Z;
  dedup : gset Z;
  uniqLog : list Z
}.

Definition withSem (ch : Chan) (c : Counter) : Counter :=
  mkCounter ch (totalValid c) (intervalValid c) (dedup c) (uniqLog c).

(** Modelled from the spec: [NewCounter] is missing from the sources; the
    gate is "a capacity-bounded token pool with fixed capacity C", created
    empty. *)
Definition NewCounter (limit : nat) : Counter :=
  mkCounter (mkChan [] limit) 0 0 ∅ [].

(** Modelled from the spec: [Inc] is missing from the sources; "increments
    totalValid and intervalValid by one". *)
Definition Inc (c : Counter) : Counter :=
  mkCounter (Sem c) (totalValid c + 1) (intervalValid c + 1)
    (dedup c) (uniqLog c).

(** Modelled from the spec: [HasValue] is missing from the sources;
    "reports whether value is already in DedupSet". *)
Definition HasValue (v : Z) (c : Counter) : bool :=
  bool_decide (v ∈ dedup c).

(** Modelled from the spec: [RecordUniq] is missing from the sources;
    "atomically checks membership and inserts if absent", with "no error
    if already present", and it "surfaces an error only if a required
    side-effect (e.g., durable log append) fails".  [appendErr] is what the
    log append answers when it is attempted. *)
Definition RecordUniq (v : Z) (appendErr : option string) (c : Counter)
  : Counter * option string :=
  if bool_decide (v ∈ dedup c) then (c, None)
  else
    let c' := mkCounter (Sem c) (totalValid c) (intervalValid c)
                ({[ v ]} ∪ dedup c) (uniqLog c) in
    match appendErr with
    | Some e => (c', Some e)
    | None =>
        (mkCounter (Sem c) (totalValid c) (intervalValid c)
           ({[ v ]} ∪ dedup c) (uniqLog c ++ [v]), None)
    end.

(** ** [handleConnection] *)

(** What a handler does that others can observe, in program order. *)
Inductive Event :=
| EvWrite (s : string)       (* fmt.Fprintf(conn, ...) *)
| EvInc                      (* counter.Inc() *)
| EvHasValue (n : Z)         (* counter.HasValue(num) *)
| EvRecordUniq (n : Z)       (* counter.RecordUniq(num) *)
| EvFatal (msg : string)     (* log.Fatalf: the message, then os.Exit(1) *)
| EvClose                    (* conn.Close() *)
| EvRelease.                 (* <-counter.Sem *)

(** How a run of the handler ends: it returns, the process exits in
    [log.Fatalf], or the deferred receive finds the semaphore empty. *)
Inductive Exit := Returned | Fatal | Blocked.

Record Run := mkRun { exit : Exit; final : Counter; trace : list Event }.

Definition fatalRead (msg : string) : string := "Error reading: " +:+ msg.
Definition fatalRecord (msg : string) : string :=
  "could not log unique value: " +:+ msg +:+ nlStr.

(** Lines 116-149 of [handleConnection]: what is done with the line read,
    over a parser [atoi]. *)
Definition handleLine (atoi : string -> strconv.NumError + Z)
    (s : string) (appendErr : option string) (c : Counter) : Run :=
  if negb (len s =? validLen)
  then mkRun Returned c [EvWrite (errLength (len s))]
  else
    match atoi s with
    | inl _ => mkRun Returned c [EvWrite errNumber]
    | inr num =>
        if num <? minValue
        then mkRun Returned c [EvWrite errRange]
        else
          let c1 := Inc c in
          if HasValue num c1
          then mkRun Returned c1 [EvInc; EvWrite (echo num); EvHasValue num]
          else
            let '(c2, e) := RecordUniq num appendErr c1 in
            match e with
            | Some msg =>
                mkRun Fatal c2
                  [EvInc; EvWrite (echo num); EvHasValue num;
                   EvRecordUniq num; EvFatal (fatalRecord msg)]
            | None =>
                mkRun Returned c2
                  [EvInc; EvWrite (echo num); EvHasValue num;
                   EvRecordUniq num]
            end
    end.

(** The body of [handleConnection], lines 106-149: the read, the fatal
    exit on an error other than [io.EOF], then the line. *)
Definition handleBody (atoi : string -> strconv.NumError + Z)
    (conn : Conn) (appendErr : option string) (c : Counter) : Run :=
  let '(s, err) := ReadString nl conn in
  match err with
  | Some (ReadFault msg) => mkRun Fatal c [EvFatal (fatalRead msg)]
  | _ => handleLine atoi s appendErr c
  end.

(** The deferred closure, lines 96-104.  It runs when the body returns;
    [log.Fatalf] ends in [os.Exit], which runs no deferred function. *)
Definition deferred (r : Run) : Run :=
  match exit r with
  | Returned =>
      match recv (Sem (final r)) with
      | Some (_, ch) =>
          mkRun Returned (withSem ch (final r))
            (trace r ++ [EvClose; EvRelease])
      | None => mkRun Blocked (final r) (trace r ++ [EvClose])
      end
  | _ => r
  end.

Definition handleConnectionWith (atoi : string -> strconv.NumError + Z)
    (conn : Conn) (appendErr : option string) (c : Counter) : Run :=
  deferred (handleBody atoi conn appendErr c).

Definition handleConnection : Conn -> option string -> Counter -> Run :=
  handleConnectionWith strconv.Atoi.

(** The writes to the client, one entry per [Fprintf]. *)
Fixpoint writes (tr : list Event) : list string :=
  match tr with
  | [] => []
  | EvWrite s :: rest => s :: writes rest
  | _ :: rest => writes rest
  end.

Definition isRelease (e : Event) : bool :=
  match e with EvRelease => true | _ => false end.

Definition isRecordUniq (e : Event) : bool :=
  match e with EvRecordUniq _ => true | _ => false end.

Definition isFatal (e : Event) : bool :=
  match e with EvFatal _ => true | _ => false end.

Fixpoint countEv (p : Event -> bool) (tr : list Event) : nat :=
  match tr with
  | [] => 0%nat
  | e :: rest => ((if p e then 1 else 0) + countEv p rest)%nat
  end.

(** The read delivered the line [s]: a complete line, or the data before
    a clean end of stream. *)
Definition delivered (conn : Conn) (s : string) : Prop :=
  ReadString nl conn = (s, None) \/ ReadString nl conn = (s, Some EOF).

(** A counter whose gate holds one token, as a handler finds it. *)
Definition oneToken : Counter := mkCounter (mkChan [1] connLimit) 0 0 ∅ [].

(** ** Decimal digit strings *)

Definition code (ch : ascii) : Z := Z.of_nat (nat_of_ascii ch).

Definition isDigit (ch : ascii) : bool := (48 <=? code ch) && (code ch <=? 57).

Fixpoint allDigits (s : string) : bool :=
  match s with
  | EmptyString => true
  | String ch rest => isDigit ch && allDigits rest
  end.

(** The number a digit string denotes, most significant digit first. *)
Fixpoint decimalFrom (n : Z) (s : string) : Z :=
  match s with
  | EmptyString => n
  | String ch rest => decimalFrom (n * 10 + (code ch - 48)) rest
  end.

Definition decimal (s : string) : Z := decimalFrom 0 s.

(** ** Rejected requests *)

Definition isCounterCall (e : Event) : bool :=
  match e with
  | EvInc | EvHasValue _ | EvRecordUniq _ => true
  | _ => false
  end.

(** Nothing was recorded between [c] and [c']. *)
Definition unchanged (c c' : Counter) : Prop :=
  totalValid c' = totalValid c /\ intervalValid c' = intervalValid c /\
  dedup c' = dedup c /\ uniqLog c' = uniqLog c.

(** The run answered the single line [m], did not end the process, called
    no operation of the counter and recorded nothing. *)
Definition rejectedWith (m : string) (c : Counter) (r : Run) : Prop :=
  writes (trace r) = [m] /\ exit r <> Fatal /\
  countEv isCounterCall (trace r) = 0%nat /\ unchanged c (final r).

(** ** Accepted requests *)

Definition isInc (e : Event) : bool :=
  match e with EvInc => true | _ => false end.

(** ** Failures *)

(** The failures a run can meet: the two internal faults, and the three
    kinds of client input errors. *)
Inductive Failure :=
| ReadFailure | RecordFailure
| BadLength | BadFormat | BelowMinimum.

Definition internal (k : Failure) : bool :=
  match k with
  | ReadFailure | RecordFailure => true
  | BadLength | BadFormat | BelowMinimum => false
  end.

(** When a run on [conn], with the log append answering [appendErr], meets
    each kind of failure, and the line of the log or of the answer that goes
    with it. *)
Inductive meets (conn : Conn) (appendErr : option string) (c : Counter)
  : Failure -> string -> Prop :=
| meets_read s msg :
    ReadString nl conn = (s, Some (ReadFault msg)) ->
    meets conn appendErr c ReadFailure (fatalRead msg)
| meets_record s num msg :
    delivered conn s -> len s = validLen -> strconv.Atoi s = inr num ->
    minValue <= num -> num ∉ dedup c -> appendErr = Some msg ->
    meets conn appendErr c RecordFailure (fatalRecord msg)
| meets_length s :
    delivered conn s -> len s <> validLen ->
    meets conn appendErr c BadLength (errLength (len s))
| meets_format s e :
    delivered conn s -> len s = validLen -> strconv.Atoi s = inl e ->
    meets conn appendErr c BadFormat errNumber
| meets_minimum s num :
    delivered conn s -> len s = validLen -> strconv.Atoi s = inr num ->
    num < minValue ->
    meets conn appendErr c BelowMinimum errRange.

(** ** The server: accept loop, dispatch and handlers *)

Definition ConnId := nat.

(** What happens to a connection, as recorded in the history. *)
Inductive Action :=
| Acquired                 (* [counter.Sem <- 1] went through *)
| Rejected (msg : string)  (* the [default] branch: busy message, close *)
| Dispatched               (* [go handleConnection(conn, counter)] *)
| Handler (e : Event)      (* an event of the connection's handler *)
| Exited (x : Exit).       (* how the handler ended *)

Record Server := mkServer {
  counter : Counter;
  handoff : option ConnId;   (* the connection being sent on [conns] *)
  active : list ConnId;      (* the connections whose handler is running *)
  next : ConnId;             (* the number of connections accepted *)
  halted : bool;             (* the process has exited *)
  history : list (ConnId * Action)
}.

(** [main], line 37: the counter is created with [connLimit]. *)
Definition initServer : Server :=
  mkServer (NewCounter connLimit) None [] 0%nat false [].

Fixpoint removeId (id : ConnId) (l : list ConnId) : list ConnId :=
  match l with
  | [] => []
  | x :: rest => if (x =? id)%nat then rest else x :: removeId id rest
  end.

Definition handlerLog (id : ConnId) (r : Run) : list (ConnId * Action) :=
  (map (fun e => (id, Handler e)) (trace r) ++ [(id, Exited (exit r))])%list.

(** The moves of the process.  [Accept] is one round of the loop of
    [acceptConns] up to the send on [conns]; [Dispatch] is [main] receiving
    from [conns] and starting the handler; [Handle] is the handler of a
    running connection, given what its client sends and what the log append
    answers; [Signal] is a termination signal, after which [main] exits.
    A failed [srv.Accept] changes nothing and is left out.  A handler is one
    move: in the program other handlers may run between its operations on
    the counter, which matters to the totals and not to the gate, since a
    handler touches the gate once, at its end.  A handler whose deferred
    receive would block has no move. *)
Inductive Cmd :=
| Accept
| Dispatch
| Handle (id : ConnId) (conn : Conn) (appendErr : option string)
| Signal.

Definition exec (cmd : Cmd) (s : Server) : option Server :=
  if halted s then None
  else
    match cmd with
    | Accept =>
        match handoff s with
        | Some _ => None
        | None =>
            match trySend 1 (Sem (counter s)) with
            | Some ch =>
                Some (mkServer (withSem ch (counter s)) (Some (next s))
                        (active s) (S (next s)) false
                        (history s ++ [(next s, Acquired)]))
            | None =>
                Some (mkServer (counter s) None (active s) (S (next s)) false
                        (history s ++ [(next s, Rejected busy)]))
            end
        end
    | Dispatch =>
        match handoff s with
        | Some id =>
            Some (mkServer (counter s) None (id :: active s) (next s) false
                    (history s ++ [(id, Dispatched)]))
        | None => None
        end
    | Handle id conn appendErr =>
        if existsb (Nat.eqb id) (active s) then
          let r := handleConnection conn appendErr (counter s) in
          match exit r with
          | Returned =>
              Some (mkServer (final r) (handoff s) (removeId id (active s))
                      (next s) false (history s ++ handlerLog id r))
          | Fatal =>
              Some (mkServer (final r) (handoff s) (active s) (next s) true
                      (history s ++ handlerLog id r))
          | Blocked => None
          end
        else None
    | Signal =>
        Some (mkServer (counter s) (handoff s) (active s) (next s) true
                (history s))
    end.

Fixpoint execAll (cmds : list Cmd) (s : Server) : option Server :=
  match cmds with
  | [] => Some s
  | cmd :: rest =>
      match exec cmd s with
      | Some s' => execAll rest s'
      | None => None
      end
  end.

Inductive reachable : Server -> Prop :=
| reach_init : reachable initServer
| reach_exec s cmd s' : reachable s -> exec cmd s = Some s' -> reachable s'.

(** The tokens outstanding, and the connections that hold one. *)
Definition outstanding (s : Server) : nat := length (buf (Sem (counter s))).

Definition holders (s : Server) : list ConnId :=
  (match handoff s with Some id => [id] | None => [] end ++ active s)%list.

(** Counting the entries of one connection in a history. *)
Fixpoint count (p : Action -> bool) (id : ConnId)
    (h : list (ConnId * Action)) : nat :=
  match h with
  | [] => 0%nat
  | (i, a) :: rest =>
      ((if (i =? id)%nat && p a then 1 else 0) + count p id rest)%nat
  end.

Definition isAcquired (a : Action) : bool :=
  match a with Acquired => true | _ => false end.
Definition isRejected (a : Action) : bool :=
  match a with Rejected _ => true | _ => false end.
Definition isHandler (a : Action) : bool :=
  match a with Handler _ | Exited _ => true | _ => false end.
Definition isReturn (a : Action) : bool :=
  match a with Exited Returned => true | _ => false end.
Definition isExitFatal (a : Action) : bool :=
  match a with Exited Fatal => true | _ => false end.
Definition anyAction (a : Action) : bool := true.

Definition isReleaseEv (a : Action) : bool :=
  match a with Handler e => isRelease e | _ => false end.

(** ** The gate invariant *)

Definition gateInv (s : Server) : Prop :=
  cap (Sem (counter s)) = connLimit /\
  outstanding s = length (holders s) /\
  (outstanding s <= connLimit)%nat.

(** Seven connections arrive before any handler finishes. *)
Definition sevenAccepts : list Cmd :=
  [Accept; Dispatch; Accept; Dispatch; Accept; Dispatch;
   Accept; Dispatch; Accept; Dispatch; Accept; Dispatch; Accept].

Definition stateAfter (cmds : list Cmd) : Server :=
  match execAll cmds initServer with
  | Some s => s
  | None => initServer
  end.

(** ** Acquisitions and releases, connection by connection *)

Definition acquired (id : ConnId) (s : Server) : nat :=
  count isAcquired id (history s).
Definition rejected (id : ConnId) (s : Server) : nat :=
  count isRejected id (history s).
Definition handled (id : ConnId) (s : Server) : nat :=
  count isHandler id (history s).
Definition released (id : ConnId) (s : Server) : nat :=
  count isReleaseEv id (history s).
Definition returned (id : ConnId) (s : Server) : nat :=
  count isReturn id (history s).
Definition died (id : ConnId) (s : Server) : nat :=
  count isExitFatal id (history s).

Record histInv (s : Server) : Prop := mkHistInv {
  hi_nodup : NoDup (holders s);
  hi_holders : forall id, id ∈ holders s ->
    (id < next s)%nat /\ acquired id s = 1%nat /\
    released id s = 0%nat /\ returned id s = 0%nat;
  hi_fresh : forall id, (next s <= id)%nat ->
    count anyAction id (history s) = 0%nat;
  hi_pair : forall id,
    (released id s <= acquired id s)%nat /\
    (acquired id s + rejected id s <= 1)%nat /\
    (acquired id s = 0%nat -> handled id s = 0%nat) /\
    (1 <= returned id s -> released id s = 1)%nat /\
    (1 <= died id s -> released id s = 0)%nat;
  hi_alive : halted s = false -> forall id, died id s = 0%nat
}.

(** ** Further vocabulary for the handler and the server *)

Definition isClose (e : Event) : bool :=
  match e with EvClose => true | _ => false end.

Definition isWrite (e : Event) : bool :=
  match e with EvWrite _ => true | _ => false end.

(** The largest number ten bytes of digits can denote. *)
Definition maxTenDigits : Z := 9999999999.

(** ** Decimal numerals, digit by digit *)

(** The value of a numeral of [Decimal.uint] read from its first digit on,
    after [acc]: what the loop of [Atoi] computes on its printed form. *)
Fixpoint uintValue (d : Decimal.uint) (acc : Z) : Z :=
  match d with
  | Decimal.Nil => acc
  | Decimal.D0 d => uintValue d (acc * 10)
  | Decimal.D1 d => uintValue d (acc * 10 + 1)
  | Decimal.D2 d => uintValue d (acc * 10 + 2)
  | Decimal.D3 d => uintValue d (acc * 10 + 3)
  | Decimal.D4 d => uintValue d (acc * 10 + 4)
  | Decimal.D5 d => uintValue d (acc * 10 + 5)
  | Decimal.D6 d => uintValue d (acc * 10 + 6)
  | Decimal.D7 d => uintValue d (acc * 10 + 7)
  | Decimal.D8 d => uintValue d (acc * 10 + 8)
  | Decimal.D9 d => uintValue d (acc * 10 + 9)
  end.

(** The digit of [Decimal.uint] for a digit byte. *)
Definition digitCons (ch : ascii) : Decimal.uint -> Decimal.uint :=
  if (ch =? "0")%char then Decimal.D0
  else if (ch =? "1")%char then Decimal.D1
  else if (ch =? "2")%char then Decimal.D2
  else if (ch =? "3")%char then Decimal.D3
  else if (ch =? "4")%char then Decimal.D4
  else if (ch =? "5")%char then Decimal.D5
  else if (ch =? "6")%char then Decimal.D6
  else if (ch =? "7")%char then Decimal.D7
  else if (ch =? "8")%char then Decimal.D8
  else Decimal.D9.

Fixpoint uintOfDigits (s : string) : Decimal.uint :=
  match s with
  | EmptyString => Decimal.Nil
  | String ch rest => digitCons ch (uintOfDigits rest)
  end.

(** ** Counting over whole histories *)

(** The entries of a history that satisfy [p], whatever the connection. *)
Fixpoint countAll (p : Action -> bool) (h : list (ConnId * Action)) : nat :=
  match h with
  | [] => 0%nat
  | (_, a) :: rest => ((if p a then 1 else 0) + countAll p rest)%nat
  end.

Definition isDispatched (a : Action) : bool :=
  match a with Dispatched => true | _ => false end.

Definition isExit (a : Action) : bool :=
  match a with Exited _ => true | _ => false end.

Definition dispatched (id : ConnId) (s : Server) : nat :=
  count isDispatched id (history s).

Definition exits (id : ConnId) (s : Server) : nat :=
  count isExit id (history s).

(** The entries [n] rejected connections leave, numbered from [first]. *)
Fixpoint rejections (first : ConnId) (n : nat) : list (ConnId * Action) :=
  match n with
  | O => []
  | S k => (first, Rejected busy) :: rejections (S first) k
  end.

(** Six connections let in and dispatched, none finished. *)
Definition sixRunning : list Cmd :=
  [Accept; Dispatch; Accept; Dispatch; Accept; Dispatch;
   Accept; Dispatch; Accept; Dispatch; Accept; Dispatch].

(** One dispatch and one handler per connection, as an invariant. *)
Definition onceInv (s : Server) : Prop :=
  (forall id, handoff s = Some id -> dispatched id s = 0%nat) /\
  (halted s = false ->
   forall id, id ∈ active s ->
     dispatched id s = 1%nat /\ exits id s = 0%nat) /\
  (forall id,
     (dispatched id s <= acquired id s)%nat /\
     (exits id s <= dispatched id s)%nat /\
     (exits id s <= 1)%nat).

(** ** The handler, operation by operation *)

(** Handlers run as goroutines ([main], line 53), so the operations of two
    of them on the shared counter interleave.  A task is a handler between
    two of its operations: where it stands in [handleConnection], and what it
    has done so far. *)
Inductive Pc :=
| PcStart                (* line 106: about to read *)
| PcInc (num : Z)        (* line 135: about to call Inc *)
| PcEcho (num : Z)       (* line 138: about to echo *)
| PcCheck (num : Z)      (* line 141: about to call HasValue *)
| PcRecord (num : Z)     (* line 147: about to call RecordUniq *)
| PcClose                (* line 99: about to close the connection *)
| PcRelease              (* line 103: about to receive from the semaphore *)
| PcEnd (x : Exit).      (* returned, or the process has exited *)

Record Task := mkTask { pc : Pc; events : list Event }.

Definition startTask : Task := mkTask PcStart [].

(** One operation of a handler on the counter as it is at that moment.
    Reading and validating the line touch nothing shared and are one step.
    A task that has ended has no step, and neither has one whose receive
    finds the semaphore empty. *)
Definition stepTask (conn : Conn) (appendErr : option string)
    (t : Task) (c : Counter) : option (Task * Counter) :=
  match pc t with
  | PcStart =>
      let '(s, err) := ReadString nl conn in
      match err with
      | Some (ReadFault msg) =>
          Some (mkTask (PcEnd Fatal)
                  (events t ++ [EvFatal (fatalRead msg)]), c)
      | _ =>
          if negb (len s =? validLen)
          then Some (mkTask PcClose
                       (events t ++ [EvWrite (errLength (len s))]), c)
          else
            match strconv.Atoi s with
            | inl _ =>
                Some (mkTask PcClose (events t ++ [EvWrite errNumber]), c)
            | inr num =>
                if num <? minValue
                then Some (mkTask PcClose
                             (events t ++ [EvWrite errRange]), c)
                else Some (mkTask (PcInc num) (events t), c)
            end
      end
  | PcInc num => Some (mkTask (PcEcho num) (events t ++ [EvInc]), Inc c)
  | PcEcho num =>
      Some (mkTask (PcCheck num) (events t ++ [EvWrite (echo num)]), c)
  | PcCheck num =>
      Some (mkTask (if HasValue num c then PcClose else PcRecord num)
              (events t ++ [EvHasValue num]), c)
  | PcRecord num =>
      let '(c2, e) := RecordUniq num appendErr c in
      match e with
      | Some msg =>
          Some (mkTask (PcEnd Fatal)
                  (events t ++ [EvRecordUniq num; EvFatal (fatalRecord msg)]),
                c2)
      | None => Some (mkTask PcClose (events t ++ [EvRecordUniq num]), c2)
      end
  | PcClose => Some (mkTask PcRelease (events t ++ [EvClose]), c)
  | PcRelease =>
      match recv (Sem c) with
      | Some (_, ch) =>
          Some (mkTask (PcEnd Returned) (events t ++ [EvRelease]),
                withSem ch c)
      | None => None
      end
  | PcEnd _ => None
  end.

(** A task run alone, for as long as it has a step. *)
Fixpoint runTask (fuel : nat) (conn : Conn) (appendErr : option string)
    (t : Task) (c : Counter) : Task * Counter :=
  match fuel with
  | O => (t, c)
  | S k =>
      match stepTask conn appendErr t c with
      | Some (t', c') => runTask k conn appendErr t' c'
      | None => (t, c)
      end
  end.

(** What a task that stopped amounts to as a run of the handler. *)
Definition taskRun (tc : Task * Counter) : Run :=
  mkRun (match pc (fst tc) with PcEnd x => x | _ => Blocked end)
    (snd tc) (events (fst tc)).

(** Two handlers on one counter. *)
Record Pair := mkPair { shared : Counter; first : Task; second : Task }.

Inductive Who := First | Second.

Definition isEndFatal (k : Pc) : bool :=
  match k with PcEnd Fatal => true | _ => false end.

(** [log.Fatalf] in either handler ends the process, and both with it. *)
Definition halted2 (p : Pair) : bool :=
  isEndFatal (pc (first p)) || isEndFatal (pc (second p)).

Definition stepPair (conn1 : Conn) (err1 : option string)
    (conn2 : Conn) (err2 : option string) (who : Who) (p : Pair)
  : option Pair :=
  if halted2 p then None
  else
    match who with
    | First =>
        match stepTask conn1 err1 (first p) (shared p) with
        | Some (t, c) => Some (mkPair c t (second p))
        | None => None
        end
    | Second =>
        match stepTask conn2 err2 (second p) (shared p) with
        | Some (t, c) => Some (mkPair c (first p) t)
        | None => None
        end
    end.

(** A schedule says whose operation comes next, step by step. *)
Fixpoint runPair (conn1 : Conn) (err1 : option string)
    (conn2 : Conn) (err2 : option string) (sched : list Who) (p : Pair)
  : option Pair :=
  match sched with
  | [] => Some p
  | who :: rest =>
      match stepPair conn1 err1 conn2 err2 who p with
      | Some p' => runPair conn1 err1 conn2 err2 rest p'
      | None => None
      end
  end.

(** How far a task is in the handler. *)
Definition stage (k : Pc) : nat :=
  match k with
  | PcStart => 0
  | PcInc _ => 1
  | PcEcho _ => 2
  | PcCheck _ => 3
  | PcRecord _ => 4
  | PcClose => 5
  | PcRelease => 6
  | PcEnd _ => 7
  end.

(** Past the lookup and the recording, and not by [log.Fatalf]. *)
Definition settled (k : Pc) : bool :=
  match k with
  | PcClose | PcRelease | PcEnd Returned => true
  | _ => false
  end.

Definition incd (t : Task) : nat := countEv isInc (events t).
Definition recd (t : Task) : nat := countEv isRecordUniq (events t).

(** What holds of a task whose connection carries the valid number
    [num]. *)
Definition taskInv (num : Z) (t : Task) : Prop :=
  match pc t with
  | PcInc n | PcEcho n | PcCheck n | PcRecord n => n = num
  | _ => True
  end /\
  writes (events t) = (if (3 <=? stage (pc t))%nat then [echo num] else []) /\
  incd t = (if (2 <=? stage (pc t))%nat then 1 else 0)%nat /\
  (recd t <= 1)%nat /\
  ((stage (pc t) <= 4)%nat -> recd t = 0%nat).

(** What holds of the counter and two tasks that both carry [num], when
    they started on the counter [c0]. *)
Definition sideInv (c0 : Counter) (num : Z) (c : Counter) (t o : Task)
  : Prop :=
  taskInv num t /\ taskInv num o /\
  totalValid c = totalValid c0 + Z.of_nat (incd t + incd o) /\
  intervalValid c = intervalValid c0 + Z.of_nat (incd t + incd o) /\
  dedup c = (if (recd t + recd o =? 0)%nat then dedup c0
             else {[ num ]} ∪ dedup c0) /\
  (isEndFatal (pc t) || isEndFatal (pc o) = false ->
   uniqLog c = (if (recd t + recd o =? 0)%nat then uniqLog c0
                else uniqLog c0 ++ [num])%list) /\
  ((1 <= recd t + recd o)%nat \/ pc t = PcRecord num \/ pc o = PcRecord num ->
   num ∉ dedup c0) /\
  (settled (pc t) = true \/ settled (pc o) = true -> num ∈ dedup c).

Definition pairOK (c0 : Counter) (num : Z) (p : Pair) : Prop :=
  sideInv c0 num (shared p) (first p) (second p).

(** A counter whose gate holds two tokens, as two handlers find it. *)
Definition twoTokens : Counter := mkCounter (mkChan [1; 1] connLimit) 0 0 ∅ [].

(** Where a schedule leaves two handlers started on [c]. *)
Definition pairAfter (conn1 : Conn) (err1 : option string)
    (conn2 : Conn) (err2 : option string) (sched : list Who) (c : Counter)
  : Pair :=
  match runPair conn1 err1 conn2 err2 sched (mkPair c startTask startTask) with
  | Some p => p
  | None => mkPair c startTask startTask
  end.

(** Two handlers that both look the number up before either records it. *)
Definition racingSchedule : list Who :=
  [First; First; First; First; Second; Second; Second; Second;
   First; Second; First; Second; First; Second].

(** * Properties *)

(** ** The line reader *)

Lemma upTo_ends_with_delim delim s line :
  upTo delim s = Some line ->
  exists pre, line = pre +:+ String delim EmptyString.
Proof.
  revert line. induction s as [|ch rest IH]; intros line H; simpl in H.
  - discriminate.
  - destruct (Ascii.eqb ch delim) eqn:E.
    + apply Ascii.eqb_eq in E. subst ch. inversion H; subst.
      exists EmptyString. reflexivity.
    + destruct (upTo delim rest) as [l|] eqn:U; simpl in H; [|discriminate].
      inversion H; subst. destruct (IH l eq_refl) as [pre ->].
      exists (String ch pre). reflexivity.
Qed.

Lemma isDigit_not_nl ch : isDigit ch = true -> Ascii.eqb ch nl = false.
Proof.
  intros H. destruct (Ascii.eqb ch nl) eqn:E; [|reflexivity].
  apply Ascii.eqb_eq in E. subst ch. discriminate H.
Qed.

Lemma upTo_digits s : allDigits s = true -> upTo nl s = None.
Proof.
  induction s as [|ch rest IH]; simpl; intros H; [reflexivity|].
  apply andb_prop in H as [Hd Hr].
  rewrite (isDigit_not_nl _ Hd), (IH Hr). reflexivity.
Qed.

Lemma ReadString_digits s e :
  allDigits s = true -> ReadString nl (mkConn s e) = (s, Some e).
Proof. intros H. unfold ReadString. simpl. rewrite (upTo_digits _ H). reflexivity. Qed.

(** ** [strconv.Atoi] *)

Lemma append_cons ch a b : String ch a +:+ b = String ch (a +:+ b).
Proof. reflexivity. Qed.

Lemma append_empty b : EmptyString +:+ b = b.
Proof. reflexivity. Qed.

Lemma len_cons ch a : len (String ch a) = 1 + len a.
Proof. unfold len. cbn [String.length]. lia. Qed.

Lemma len_append a b : len (a +:+ b) = len a + len b.
Proof.
  induction a as [|ch a IH].
  - rewrite append_empty. unfold len. simpl. lia.
  - rewrite append_cons, !len_cons, IH. lia.
Qed.

Lemma fastDigits_newline pre n :
  strconv.fastDigits (pre +:+ nlStr) n = None.
Proof.
  revert n. induction pre as [|ch pre IH]; intros n.
  - reflexivity.
  - rewrite append_cons. cbn [strconv.fastDigits].
    destruct (9 <? strconv.subByte ch "0"); [reflexivity|apply IH].
Qed.

Lemma fastPath_newline pre :
  strconv.fastPath (pre +:+ nlStr) = inl strconv.ErrSyntax.
Proof.
  destruct pre as [|ch pre].
  - reflexivity.
  - rewrite append_cons. unfold strconv.fastPath.
    destruct (strconv.isSign ch).
    + rewrite fastDigits_newline.
      destruct (len (pre +:+ nlStr) <? 1); reflexivity.
    + rewrite <- append_cons, fastDigits_newline. reflexivity.
Qed.

(** A line of the valid length that still carries its newline is never a
    number for [Atoi]. *)
Lemma Atoi_newline pre :
  len (pre +:+ nlStr) = validLen ->
  strconv.Atoi (pre +:+ nlStr) = inl strconv.ErrSyntax.
Proof.
  intros H. unfold strconv.Atoi. cbv zeta. rewrite H.
  change ((strconv.intSize =? 32) && ((0 <? validLen) && (validLen <? 10))
          || (strconv.intSize =? 64) && ((0 <? validLen) && (validLen <? 19)))
    with true. cbv iota. apply fastPath_newline.
Qed.

Lemma subByte_digit ch :
  isDigit ch = true -> strconv.subByte ch "0" = code ch - 48 /\ 0 <= code ch - 48 <= 9.
Proof.
  unfold isDigit, strconv.subByte, code. intros H.
  apply andb_prop in H as [H1 H2]. apply Z.leb_le in H1, H2.
  change (Z.of_nat (nat_of_ascii "0")) with 48.
  rewrite Z.mod_small by lia. lia.
Qed.

Lemma fastDigits_digits s n :
  allDigits s = true -> strconv.fastDigits s n = Some (decimalFrom n s).
Proof.
  revert n. induction s as [|ch rest IH]; intros n H; simpl in *.
  - reflexivity.
  - apply andb_prop in H as [Hd Hr].
    destruct (subByte_digit _ Hd) as [-> Hb].
    destruct (9 <? code ch - 48) eqn:E; [apply Z.ltb_lt in E; lia|].
    apply IH, Hr.
Qed.

Lemma isDigit_not_sign ch : isDigit ch = true -> strconv.isSign ch = false /\ Ascii.eqb ch "-" = false.
Proof.
  intros H. unfold strconv.isSign.
  destruct (Ascii.eqb ch "-") eqn:E1.
  { apply Ascii.eqb_eq in E1. subst. discriminate H. }
  destruct (Ascii.eqb ch "+") eqn:E2.
  { apply Ascii.eqb_eq in E2. subst. discriminate H. }
  split; reflexivity.
Qed.

(** Ten digits are a number for [Atoi], the one they denote. *)
Lemma Atoi_digits s :
  allDigits s = true -> len s = validLen ->
  strconv.Atoi s = inr (decimal s).
Proof.
  intros Hd Hl. unfold strconv.Atoi. cbv zeta. rewrite Hl.
  change ((strconv.intSize =? 32) && ((0 <? validLen) && (validLen <? 10))
          || (strconv.intSize =? 64) && ((0 <? validLen) && (validLen <? 19)))
    with true. cbv iota.
  destruct s as [|ch rest]; [discriminate Hl|].
  unfold strconv.fastPath.
  pose proof Hd as Hd'. cbn [allDigits] in Hd'.
  apply andb_prop in Hd' as [Hc _].
  destruct (isDigit_not_sign _ Hc) as [-> ->]. cbv zeta iota.
  rewrite (fastDigits_digits _ 0 Hd). reflexivity.
Qed.

(** ** The deferred closure *)

Lemma writes_app t1 t2 :
  writes (t1 ++ t2)%list = (writes t1 ++ writes t2)%list.
Proof.
  induction t1 as [|e t1 IH]; [reflexivity|].
  destruct e; simpl; rewrite ?IH; reflexivity.
Qed.

Lemma countEv_app p t1 t2 :
  countEv p (t1 ++ t2)%list = (countEv p t1 + countEv p t2)%nat.
Proof.
  induction t1 as [|e t1 IH]; [reflexivity|].
  simpl. rewrite IH. lia.
Qed.

Lemma deferred_writes r : writes (trace (deferred r)) = writes (trace r).
Proof.
  unfold deferred. destruct (exit r); try reflexivity.
  destruct (recv (Sem (final r))) as [[v ch]|]; simpl;
    rewrite writes_app; simpl; apply app_nil_r.
Qed.

Lemma deferred_countEv p r :
  p EvClose = false -> p EvRelease = false ->
  countEv p (trace (deferred r)) = countEv p (trace r).
Proof.
  intros Hc Hr. unfold deferred. destruct (exit r); try reflexivity.
  destruct (recv (Sem (final r))) as [[v ch]|]; simpl;
    rewrite countEv_app; simpl; rewrite ?Hc, ?Hr; lia.
Qed.

(** The deferred closure touches the gate only. *)
Lemma deferred_keeps r :
  totalValid (final (deferred r)) = totalValid (final r) /\
  intervalValid (final (deferred r)) = intervalValid (final r) /\
  dedup (final (deferred r)) = dedup (final r) /\
  uniqLog (final (deferred r)) = uniqLog (final r).
Proof.
  unfold deferred. destruct (exit r); try (repeat split; reflexivity).
  destruct (recv (Sem (final r))) as [[v ch]|]; repeat split; reflexivity.
Qed.

Lemma deferred_fatal r : exit (deferred r) = Fatal <-> exit r = Fatal.
Proof.
  unfold deferred. destruct (exit r) eqn:E.
  - destruct (recv (Sem (final r))) as [[v ch]|]; simpl; split; discriminate.
  - rewrite E. tauto.
  - rewrite E. tauto.
Qed.

(** With a token in the gate the closure closes the connection and takes
    one token out. *)
Lemma deferred_release r v rest :
  exit r = Returned -> buf (Sem (final r)) = v :: rest ->
  deferred r =
    mkRun Returned (withSem (mkChan rest (cap (Sem (final r)))) (final r))
      (trace r ++ [EvClose; EvRelease]).
Proof.
  intros He Hb. unfold deferred, recv. rewrite He, Hb. reflexivity.
Qed.

(** ** The body of the handler, case by case *)

Ltac read_line H :=
  let R := fresh "R" in
  destruct H as [R|R]; unfold handleBody; rewrite R; cbv beta iota;
  unfold handleLine.

Section Body.

Variable atoi : string -> strconv.NumError + Z.
Variables (conn : Conn) (appendErr : option string) (c : Counter).
Variable s : string.
Hypothesis Hread : delivered conn s.

Lemma body_bad_length :
  len s <> validLen ->
  handleBody atoi conn appendErr c =
    mkRun Returned c [EvWrite (errLength (len s))].
Proof.
  intros Hl. apply Z.eqb_neq in Hl.
  read_line Hread; rewrite Hl; reflexivity.
Qed.

Lemma body_bad_format e :
  len s = validLen -> atoi s = inl e ->
  handleBody atoi conn appendErr c = mkRun Returned c [EvWrite errNumber].
Proof.
  intros Hl Hp. apply Z.eqb_eq in Hl.
  read_line Hread; rewrite Hl, Hp; reflexivity.
Qed.

Lemma body_below_min num :
  len s = validLen -> atoi s = inr num -> num < minValue ->
  handleBody atoi conn appendErr c = mkRun Returned c [EvWrite errRange].
Proof.
  intros Hl Hp Hm. apply Z.eqb_eq in Hl. apply Z.ltb_lt in Hm.
  read_line Hread; rewrite Hl, Hp; cbv beta iota; rewrite Hm; reflexivity.
Qed.

Lemma body_seen num :
  len s = validLen -> atoi s = inr num -> minValue <= num ->
  num ∈ dedup c ->
  handleBody atoi conn appendErr c =
    mkRun Returned (Inc c) [EvInc; EvWrite (echo num); EvHasValue num].
Proof.
  intros Hl Hp Hm Hin. apply Z.eqb_eq in Hl. apply Z.ltb_ge in Hm.
  assert (Hh : HasValue num (Inc c) = true)
    by (unfold HasValue; apply bool_decide_eq_true; exact Hin).
  read_line Hread; rewrite Hl, Hp; cbv beta iota; rewrite Hm;
    cbv beta iota zeta; rewrite Hh; reflexivity.
Qed.

Lemma body_new num :
  len s = validLen -> atoi s = inr num -> minValue <= num ->
  num ∉ dedup c ->
  handleBody atoi conn appendErr c =
    match appendErr with
    | Some msg =>
        mkRun Fatal (fst (RecordUniq num appendErr (Inc c)))
          [EvInc; EvWrite (echo num); EvHasValue num; EvRecordUniq num;
           EvFatal (fatalRecord msg)]
    | None =>
        mkRun Returned (fst (RecordUniq num appendErr (Inc c)))
          [EvInc; EvWrite (echo num); EvHasValue num; EvRecordUniq num]
    end.
Proof.
  intros Hl Hp Hm Hin. apply Z.eqb_eq in Hl. apply Z.ltb_ge in Hm.
  assert (Hh : HasValue num (Inc c) = false)
    by (unfold HasValue; apply bool_decide_eq_false; exact Hin).
  assert (Hd : bool_decide (num ∈ dedup (Inc c)) = false) by exact Hh.
  read_line Hread; rewrite Hl, Hp; cbv beta iota; rewrite Hm;
    cbv beta iota zeta; rewrite Hh; unfold RecordUniq; rewrite Hd;
    destruct appendErr; reflexivity.
Qed.

End Body.

Lemma body_read_fault atoi conn appendErr c s msg :
  ReadString nl conn = (s, Some (ReadFault msg)) ->
  handleBody atoi conn appendErr c = mkRun Fatal c [EvFatal (fatalRead msg)].
Proof. intros H. unfold handleBody. rewrite H. reflexivity. Qed.

Lemma rejected_run atoi conn appendErr c m :
  handleBody atoi conn appendErr c = mkRun Returned c [EvWrite m] ->
  rejectedWith m c (handleConnectionWith atoi conn appendErr c).
Proof.
  intros Hb. unfold handleConnectionWith, rejectedWith, unchanged.
  rewrite deferred_writes, deferred_countEv by reflexivity.
  destruct (deferred_keeps (handleBody atoi conn appendErr c))
    as (-> & -> & -> & ->).
  rewrite deferred_fatal, Hb. simpl.
  repeat split; discriminate.
Qed.

(** Every complete line of the valid length, newline included, is answered
    with the format error. *)
Lemma newline_line_rejected conn appendErr c s :
  ReadString nl conn = (s, None) -> len s = validLen ->
  rejectedWith errNumber c (handleConnection conn appendErr c).
Proof.
  intros Hr Hl. apply rejected_run.
  assert (Hd : delivered conn s) by (left; exact Hr).
  unfold ReadString in Hr.
  destruct (upTo nl (sent conn)) as [line|] eqn:U; [|discriminate].
  inversion Hr; subst line.
  destruct (upTo_ends_with_delim _ _ _ U) as [pre ->].
  eapply body_bad_format; [exact Hd|exact Hl|].
  apply (Atoi_newline pre Hl).
Qed.

(** C1. The claim asks that a well-formed line (decimal digits and a
    newline, ten bytes in all) be counted and echoed.  The handler hands the
    line to [Atoi] with its newline, so the line "123456789\n" is read
    whole, has the valid length, and is answered with the format error;
    nothing is counted. *)
Theorem C1_wellformed_line_gets_format_error :
  forall appendErr c,
    let conn := mkConn ("123456789" +:+ nlStr) EOF in
    ReadString nl conn = ("123456789" +:+ nlStr, None) /\
    len ("123456789" +:+ nlStr) = validLen /\
    strconv.Atoi "123456789" = inr 123456789 /\
    minValue <= 123456789 /\
    rejectedWith ("ERR Malformed Request: expected number" +:+ nlStr) c
      (handleConnection conn appendErr c).
Proof.
  intros appendErr c conn. repeat split; try reflexivity; try discriminate;
    eapply (newline_line_rejected conn appendErr c); reflexivity.
Qed.

(** C3. A line whose raw length is not 10 is answered with the length
    error naming its length, whatever the parser would have said of it (the
    statement holds for every [atoi]), and nothing is recorded; the line
    "123\n" is answered "... expected length 10, got 4.\n". *)
Theorem C3_bad_length_rejected_before_parsing :
  (forall atoi conn appendErr c s,
      delivered conn s -> len s <> validLen ->
      rejectedWith
        ("ERR Malformed Request: expected length 10, got " +:+ fmtInt (len s)
           +:+ "." +:+ nlStr)
        c (handleConnectionWith atoi conn appendErr c)) /\
  (forall appendErr c,
      rejectedWith
        ("ERR Malformed Request: expected length 10, got 4." +:+ nlStr)
        c (handleConnection (mkConn ("123" +:+ nlStr) EOF) appendErr c)).
Proof.
  assert (G : forall atoi conn appendErr c s,
             delivered conn s -> len s <> validLen ->
             rejectedWith (errLength (len s)) c
               (handleConnectionWith atoi conn appendErr c)).
  { intros atoi conn appendErr c s Hd Hl. apply rejected_run.
    apply (body_bad_length atoi conn appendErr c s Hd Hl). }
  split.
  - exact G.
  - intros appendErr c.
    apply (G strconv.Atoi (mkConn ("123" +:+ nlStr) EOF) appendErr c
             ("123" +:+ nlStr)).
    + left. reflexivity.
    + discriminate.
Qed.

Lemma C3_witness :
  delivered (mkConn "12345678901234" EOF) "12345678901234" /\
  len "12345678901234" <> validLen /\
  rejectedWith
    ("ERR Malformed Request: expected length 10, got 14." +:+ nlStr)
    oneToken
    (handleConnectionWith strconv.Atoi (mkConn "12345678901234" EOF)
       None oneToken).
Proof.
  assert (Hd : delivered (mkConn "12345678901234" EOF) "12345678901234")
    by (right; reflexivity).
  assert (Hl : len "12345678901234" <> validLen) by (vm_compute; lia).
  split; [exact Hd|]. split; [exact Hl|].
  exact (proj1 C3_bad_length_rejected_before_parsing strconv.Atoi
           (mkConn "12345678901234" EOF) None oneToken "12345678901234"
           Hd Hl).
Defined.

(** C8. A 10-byte line that [Atoi] rejects is answered with the single
    line "ERR Malformed Request: expected number\n", and nothing is
    recorded. *)
Theorem C8_unparsable_line_rejected :
  forall conn appendErr c s e,
    delivered conn s -> len s = validLen -> strconv.Atoi s = inl e ->
    rejectedWith ("ERR Malformed Request: expected number" +:+ nlStr) c
      (handleConnection conn appendErr c).
Proof.
  intros conn appendErr c s e Hd Hl Hp. apply rejected_run.
  apply (body_bad_format strconv.Atoi conn appendErr c s Hd e Hl Hp).
Qed.

Lemma C8_witness :
  delivered (mkConn "12345x6789" EOF) "12345x6789" /\
  len "12345x6789" = validLen /\
  strconv.Atoi "12345x6789" = inl strconv.ErrSyntax /\
  rejectedWith ("ERR Malformed Request: expected number" +:+ nlStr) oneToken
    (handleConnection (mkConn "12345x6789" EOF) None oneToken).
Proof.
  assert (Hd : delivered (mkConn "12345x6789" EOF) "12345x6789")
    by (right; reflexivity).
  assert (Hl : len "12345x6789" = validLen) by reflexivity.
  assert (Hp : strconv.Atoi "12345x6789" = inl strconv.ErrSyntax)
    by reflexivity.
  split; [exact Hd|]. split; [exact Hl|]. split; [exact Hp|].
  exact (C8_unparsable_line_rejected (mkConn "12345x6789" EOF) None oneToken
           "12345x6789" strconv.ErrSyntax Hd Hl Hp).
Defined.

(** C2 (as stated, refuted). The line "0000000001\n" is eleven bytes long:
    it is answered with the length error, not with the range error. *)
Lemma C2_counterexample :
  let r := handleConnection (mkConn ("0000000001" +:+ nlStr) EOF) None
             oneToken in
  len ("0000000001" +:+ nlStr) = 11 /\
  writes (trace r) =
    ["ERR Malformed Request: expected length 10, got 11." +:+ nlStr] /\
  writes (trace r) <>
    ["ERR Malformed Request: expected number greater than 1000000" +:+ nlStr].
Proof. vm_compute. repeat split; discriminate. Qed.

(** C2 (amended). A 10-byte line that parses to a number below 1,000,000
    is answered "ERR Malformed Request: expected number greater than
    1000000\n" and nothing is recorded; the ten bytes "0000000001" followed
    by the end of the stream are such a line, while "0000000001\n" gets the
    length error for 11 bytes. *)
Theorem C2_below_minimum_rejected :
  (forall conn appendErr c s num,
      delivered conn s -> len s = validLen -> strconv.Atoi s = inr num ->
      num < minValue ->
      rejectedWith
        ("ERR Malformed Request: expected number greater than 1000000"
           +:+ nlStr)
        c (handleConnection conn appendErr c)) /\
  (forall appendErr c,
      rejectedWith
        ("ERR Malformed Request: expected number greater than 1000000"
           +:+ nlStr)
        c (handleConnection (mkConn "0000000001" EOF) appendErr c) /\
      rejectedWith
        ("ERR Malformed Request: expected length 10, got 11." +:+ nlStr)
        c (handleConnection (mkConn ("0000000001" +:+ nlStr) EOF)
             appendErr c)).
Proof.
  assert (G : forall conn appendErr c s num,
             delivered conn s -> len s = validLen ->
             strconv.Atoi s = inr num -> num < minValue ->
             rejectedWith errRange c (handleConnection conn appendErr c)).
  { intros conn appendErr c s num Hd Hl Hp Hm. apply rejected_run.
    apply (body_below_min strconv.Atoi conn appendErr c s Hd num Hl Hp Hm). }
  split; [exact G|]. intros appendErr c. split.
  - apply (G (mkConn "0000000001" EOF) appendErr c "0000000001" 1).
    + right. reflexivity.
    + reflexivity.
    + reflexivity.
    + reflexivity.
  - apply rejected_run.
    apply (body_bad_length strconv.Atoi _ appendErr c
             ("0000000001" +:+ nlStr)).
    + left. reflexivity.
    + discriminate.
Qed.

Lemma C2_witness :
  delivered (mkConn "-123456789" EOF) "-123456789" /\
  len "-123456789" = validLen /\
  strconv.Atoi "-123456789" = inr (-123456789) /\
  -123456789 < minValue /\
  rejectedWith
    ("ERR Malformed Request: expected number greater than 1000000" +:+ nlStr)
    oneToken (handleConnection (mkConn "-123456789" EOF) None oneToken).
Proof.
  assert (Hd : delivered (mkConn "-123456789" EOF) "-123456789")
    by (right; reflexivity).
  assert (Hl : len "-123456789" = validLen) by reflexivity.
  assert (Hp : strconv.Atoi "-123456789" = inr (-123456789)) by reflexivity.
  assert (Hm : -123456789 < minValue) by reflexivity.
  repeat (split; [assumption|]).
  exact (proj1 C2_below_minimum_rejected (mkConn "-123456789" EOF) None
           oneToken "-123456789" (-123456789) Hd Hl Hp Hm).
Defined.

(** C10. A stream that ends cleanly before any byte is not fatal: the
    handler answers the length error for length 0, records nothing, and,
    holding a token, closes the connection and gives the token back. *)
Theorem C10_empty_stream_gets_length_error :
  forall appendErr c,
    let r := handleConnection (mkConn EmptyString EOF) appendErr c in
    rejectedWith
      ("ERR Malformed Request: expected length 10, got 0." +:+ nlStr) c r /\
    forall v rest,
      buf (Sem c) = v :: rest ->
      exit r = Returned /\
      trace r =
        [EvWrite ("ERR Malformed Request: expected length 10, got 0."
                    +:+ nlStr); EvClose; EvRelease] /\
      buf (Sem (final r)) = rest.
Proof.
  intros appendErr c r.
  assert (Hb : handleBody strconv.Atoi (mkConn EmptyString EOF) appendErr c =
               mkRun Returned c [EvWrite (errLength 0)]).
  { apply (body_bad_length strconv.Atoi _ appendErr c EmptyString).
    - right. reflexivity.
    - discriminate. }
  split.
  - apply rejected_run. exact Hb.
  - intros v rest Hs. subst r.
    unfold handleConnection, handleConnectionWith.
    rewrite (deferred_release _ v rest); rewrite Hb; try assumption;
      repeat split; reflexivity.
Qed.

Lemma C10_witness :
  buf (Sem oneToken) = [1] /\
  let r := handleConnection (mkConn EmptyString EOF) None oneToken in
  exit r = Returned /\
  trace r =
    [EvWrite ("ERR Malformed Request: expected length 10, got 0." +:+ nlStr);
     EvClose; EvRelease] /\
  buf (Sem (final r)) = [].
Proof.
  split; [reflexivity|].
  exact (proj2 (C10_empty_stream_gets_length_error None oneToken) 1 []
           eq_refl).
Defined.

(** Whatever comes after, a valid number is counted once and echoed. *)
Lemma accepted_run conn appendErr c s num :
  delivered conn s -> len s = validLen -> strconv.Atoi s = inr num ->
  minValue <= num ->
  let r := handleConnection conn appendErr c in
  writes (trace r) = [echo num] /\
  countEv isInc (trace r) = 1%nat /\
  totalValid (final r) = totalValid c + 1 /\
  intervalValid (final r) = intervalValid c + 1.
Proof.
  intros Hd Hl Hp Hm r. subst r. unfold handleConnection, handleConnectionWith.
  rewrite deferred_writes, deferred_countEv by reflexivity.
  destruct (deferred_keeps (handleBody strconv.Atoi conn appendErr c))
    as (-> & -> & _ & _).
  destruct (decide (num ∈ dedup c)) as [Hin|Hin].
  - rewrite (body_seen strconv.Atoi conn appendErr c s Hd num Hl Hp Hm Hin).
    repeat split; reflexivity.
  - rewrite (body_new strconv.Atoi conn appendErr c s Hd num Hl Hp Hm Hin).
    unfold RecordUniq.
    assert (Hb : bool_decide (num ∈ dedup (Inc c)) = false)
      by (apply bool_decide_eq_false; exact Hin).
    rewrite Hb. destruct appendErr; repeat split; reflexivity.
Qed.

(** A run on a valid number that did not end the process leaves the number
    in the dedup set. *)
Lemma accepted_recorded conn appendErr c s num :
  delivered conn s -> len s = validLen -> strconv.Atoi s = inr num ->
  minValue <= num ->
  let r := handleConnection conn appendErr c in
  exit r <> Fatal ->
  num ∈ dedup (final r) /\
  (num ∉ dedup c ->
   dedup (final r) = {[ num ]} ∪ dedup c /\
   uniqLog (final r) = (uniqLog c ++ [num])%list /\
   countEv isRecordUniq (trace r) = 1%nat).
Proof.
  intros Hd Hl Hp Hm r. subst r. unfold handleConnection, handleConnectionWith.
  rewrite deferred_fatal, deferred_countEv by reflexivity.
  destruct (deferred_keeps (handleBody strconv.Atoi conn appendErr c))
    as (_ & _ & -> & ->).
  destruct (decide (num ∈ dedup c)) as [Hin|Hin].
  - rewrite (body_seen strconv.Atoi conn appendErr c s Hd num Hl Hp Hm Hin).
    intros _. split; [exact Hin|]. intros Hn. contradiction.
  - rewrite (body_new strconv.Atoi conn appendErr c s Hd num Hl Hp Hm Hin).
    unfold RecordUniq.
    assert (Hb : bool_decide (num ∈ dedup (Inc c)) = false)
      by (apply bool_decide_eq_false; exact Hin).
    rewrite Hb. destruct appendErr as [msg|]; simpl; intros Hx.
    + contradiction.
    + split; [set_solver|]. intros _. repeat split; reflexivity.
Qed.

(** A run on a number already in the dedup set echoes and counts it, and
    leaves the set and the log of unique values alone. *)
Lemma accepted_seen conn appendErr c s num :
  delivered conn s -> len s = validLen -> strconv.Atoi s = inr num ->
  minValue <= num -> num ∈ dedup c ->
  let r := handleConnection conn appendErr c in
  exit r <> Fatal /\
  countEv isRecordUniq (trace r) = 0%nat /\
  dedup (final r) = dedup c /\ uniqLog (final r) = uniqLog c.
Proof.
  intros Hd Hl Hp Hm Hin r. subst r.
  unfold handleConnection, handleConnectionWith.
  rewrite deferred_fatal, deferred_countEv by reflexivity.
  destruct (deferred_keeps (handleBody strconv.Atoi conn appendErr c))
    as (_ & _ & -> & ->).
  rewrite (body_seen strconv.Atoi conn appendErr c s Hd num Hl Hp Hm Hin).
  repeat split; try reflexivity. discriminate.
Qed.

(** C9 (as stated, refuted). Ten decimal digits without a newline, then
    the end of the stream: "0000000001" passes the length check and parses,
    but it is answered with the range error and is not counted. *)
Lemma C9_counterexample :
  let r := handleConnection (mkConn "0000000001" EOF) None oneToken in
  allDigits "0000000001" = true /\
  len "0000000001" = validLen /\
  ReadString nl (mkConn "0000000001" EOF) = ("0000000001", Some EOF) /\
  writes (trace r) =
    ["ERR Malformed Request: expected number greater than 1000000"
       +:+ nlStr] /\
  countEv isInc (trace r) = 0%nat /\
  totalValid (final r) = totalValid oneToken.
Proof. vm_compute. repeat split; reflexivity. Qed.

(** C9 (amended). Ten decimal digits denoting a number of at least
    1,000,000, with no newline and then the end of the stream, are accepted:
    the data is read whole, has the valid length, parses to the number it
    denotes, the counter is incremented, and the parsed number is echoed
    followed by a newline. *)
Theorem C9_ten_digits_without_newline_accepted :
  forall s appendErr c,
    allDigits s = true -> len s = validLen -> minValue <= decimal s ->
    let r := handleConnection (mkConn s EOF) appendErr c in
    ReadString nl (mkConn s EOF) = (s, Some EOF) /\
    strconv.Atoi s = inr (decimal s) /\
    writes (trace r) = [fmtInt (decimal s) +:+ nlStr] /\
    countEv isInc (trace r) = 1%nat /\
    totalValid (final r) = totalValid c + 1 /\
    intervalValid (final r) = intervalValid c + 1.
Proof.
  intros s appendErr c Hd Hl Hm r.
  pose proof (ReadString_digits s EOF Hd) as Hr.
  pose proof (Atoi_digits s Hd Hl) as Hp.
  split; [exact Hr|]. split; [exact Hp|].
  apply (accepted_run (mkConn s EOF) appendErr c s (decimal s));
    try assumption.
  right. exact Hr.
Qed.

Lemma C9_witness :
  allDigits "0001234567" = true /\ len "0001234567" = validLen /\
  minValue <= decimal "0001234567" /\
  let r := handleConnection (mkConn "0001234567" EOF) None oneToken in
  ReadString nl (mkConn "0001234567" EOF) = ("0001234567", Some EOF) /\
  strconv.Atoi "0001234567" = inr (decimal "0001234567") /\
  writes (trace r) = [fmtInt (decimal "0001234567") +:+ nlStr] /\
  countEv isInc (trace r) = 1%nat /\
  totalValid (final r) = totalValid oneToken + 1 /\
  intervalValid (final r) = intervalValid oneToken + 1.
Proof.
  assert (Hd : allDigits "0001234567" = true) by reflexivity.
  assert (Hl : len "0001234567" = validLen) by reflexivity.
  assert (Hm : minValue <= decimal "0001234567") by (vm_compute; discriminate).
  repeat (split; [assumption|]).
  exact (C9_ten_digits_without_newline_accepted "0001234567" None oneToken
           Hd Hl Hm).
Defined.

(** C7. A read error other than the clean end of the stream, and a failed
    recording of a new unique value, end the process: the run ends in
    [log.Fatalf], whose message is the last thing it does (no deferred call
    follows).  The three client input errors are answered with one line and
    the run does not end the process. *)
Theorem C7_internal_faults_fatal_client_errors_local :
  forall conn appendErr c k line,
    meets conn appendErr c k line ->
    let r := handleConnection conn appendErr c in
    if internal k
    then exit r = Fatal /\ last (trace r) = Some (EvFatal line) /\
         countEv isFatal (trace r) = 1%nat
    else exit r <> Fatal /\ writes (trace r) = [line] /\
         countEv isFatal (trace r) = 0%nat.
Proof.
  intros conn appendErr c k line H r. subst r.
  unfold handleConnection, handleConnectionWith.
  destruct H as [s msg Hr | s num msg Hd Hl Hp Hm Hn -> | s Hd Hl
                | s e Hd Hl Hp | s num Hd Hl Hp Hm]; cbn [internal].
  - rewrite (body_read_fault _ _ _ _ s msg Hr). repeat split; reflexivity.
  - rewrite (body_new strconv.Atoi conn (Some msg) c s Hd num Hl Hp Hm Hn).
    repeat split; reflexivity.
  - rewrite deferred_fatal, deferred_writes, deferred_countEv by reflexivity.
    rewrite (body_bad_length strconv.Atoi conn appendErr c s Hd Hl).
    repeat split; try reflexivity. discriminate.
  - rewrite deferred_fatal, deferred_writes, deferred_countEv by reflexivity.
    rewrite (body_bad_format strconv.Atoi conn appendErr c s Hd e Hl Hp).
    repeat split; try reflexivity. discriminate.
  - rewrite deferred_fatal, deferred_writes, deferred_countEv by reflexivity.
    rewrite (body_below_min strconv.Atoi conn appendErr c s Hd num Hl Hp Hm).
    repeat split; try reflexivity. discriminate.
Qed.

Lemma C7_witness :
  let conn1 := mkConn "12345" (ReadFault "connection reset by peer") in
  let conn2 := mkConn "1234567890" EOF in
  let conn3 := mkConn "12345" EOF in
  meets conn1 None oneToken ReadFailure
    (fatalRead "connection reset by peer") /\
  meets conn2 (Some "disk full") oneToken RecordFailure
    (fatalRecord "disk full") /\
  meets conn3 None oneToken BadLength (errLength 5) /\
  (let r := handleConnection conn1 None oneToken in
   exit r = Fatal /\
   last (trace r) = Some (EvFatal (fatalRead "connection reset by peer")) /\
   countEv isFatal (trace r) = 1%nat) /\
  (let r := handleConnection conn2 (Some "disk full") oneToken in
   exit r = Fatal /\
   last (trace r) = Some (EvFatal (fatalRecord "disk full")) /\
   countEv isFatal (trace r) = 1%nat) /\
  (let r := handleConnection conn3 None oneToken in
   exit r <> Fatal /\ writes (trace r) = [errLength 5] /\
   countEv isFatal (trace r) = 0%nat).
Proof.
  intros conn1 conn2 conn3.
  assert (H1 : meets conn1 None oneToken ReadFailure
                 (fatalRead "connection reset by peer"))
    by (apply (meets_read conn1 None oneToken "12345"); reflexivity).
  assert (H2 : meets conn2 (Some "disk full") oneToken RecordFailure
                 (fatalRecord "disk full")).
  { apply (meets_record conn2 _ oneToken "1234567890" 1234567890).
    - right. reflexivity.
    - reflexivity.
    - reflexivity.
    - vm_compute. discriminate.
    - apply not_elem_of_empty.
    - reflexivity. }
  assert (H3 : meets conn3 None oneToken BadLength (errLength 5)).
  { apply (meets_length conn3 None oneToken "12345").
    - right. reflexivity.
    - vm_compute. discriminate. }
  split; [exact H1|]. split; [exact H2|]. split; [exact H3|].
  split; [|split].
  - exact (C7_internal_faults_fatal_client_errors_local conn1 None oneToken
             ReadFailure _ H1).
  - exact (C7_internal_faults_fatal_client_errors_local conn2
             (Some "disk full") oneToken RecordFailure _ H2).
  - exact (C7_internal_faults_fatal_client_errors_local conn3 None oneToken
             BadLength _ H3).
Defined.

(** ** The handler and the gate *)

Ltac body_done :=
  cbv zeta; simpl; repeat split; solve [reflexivity | discriminate].

Lemma body_keeps_gate atoi conn appendErr c :
  let r := handleBody atoi conn appendErr c in
  Sem (final r) = Sem c /\ exit r <> Blocked /\
  countEv isRelease (trace r) = 0%nat.
Proof.
  assert (G : forall s,
             let r := handleLine atoi s appendErr c in
             Sem (final r) = Sem c /\ exit r <> Blocked /\
             countEv isRelease (trace r) = 0%nat).
  { intros s. unfold handleLine.
    destruct (negb (len s =? validLen)); [body_done|].
    destruct (atoi s) as [e|num]; [body_done|].
    destruct (num <? minValue); [body_done|].
    cbv zeta. destruct (HasValue num (Inc c)); [body_done|].
    unfold RecordUniq. destruct (bool_decide (num ∈ dedup (Inc c)));
      destruct appendErr; body_done. }
  unfold handleBody. destruct (ReadString nl conn) as [s [[|msg]|]].
  - apply G.
  - body_done.
  - apply G.
Qed.

(** A handler that returns has taken exactly one token out of the gate and
    has released once; one that ends the process has released nothing. *)
Lemma handler_gate conn appendErr c :
  let r := handleConnection conn appendErr c in
  cap (Sem (final r)) = cap (Sem c) /\
  match exit r with
  | Returned =>
      (exists v, buf (Sem c) = v :: buf (Sem (final r))) /\
      countEv isRelease (trace r) = 1%nat
  | Fatal =>
      buf (Sem (final r)) = buf (Sem c) /\
      countEv isRelease (trace r) = 0%nat
  | Blocked => buf (Sem c) = []
  end.
Proof.
  unfold handleConnection, handleConnectionWith.
  destruct (body_keeps_gate strconv.Atoi conn appendErr c) as (Hs & Hb & Hc).
  set (b := handleBody strconv.Atoi conn appendErr c) in *.
  unfold deferred, recv. rewrite Hs.
  destruct (exit b) eqn:E.
  - destruct (buf (Sem c)) as [|v rest] eqn:B; simpl; rewrite ?Hs.
    + split; reflexivity.
    + split; [reflexivity|]. split; [exists v; reflexivity|].
      rewrite countEv_app, Hc. reflexivity.
  - rewrite E, Hs. repeat split; try reflexivity. exact Hc.
  - contradiction.
Qed.

(** ** Executions *)

Lemma reachable_execAll cmds s s' :
  reachable s -> execAll cmds s = Some s' -> reachable s'.
Proof.
  revert s. induction cmds as [|cmd rest IH]; intros s Hr H; simpl in H.
  - inversion H; subst. exact Hr.
  - destruct (exec cmd s) as [s1|] eqn:E; [|discriminate].
    apply (IH s1); [|exact H]. apply (reach_exec s cmd s1 Hr E).
Qed.

Lemma existsb_eqb_In id l : existsb (Nat.eqb id) l = true -> In id l.
Proof.
  intros H. apply existsb_exists in H as (x & Hx & E).
  apply Nat.eqb_eq in E. subst x. exact Hx.
Qed.

Lemma removeId_length id l :
  In id l -> S (length (removeId id l)) = length l.
Proof.
  induction l as [|x rest IH]; intros H; [destruct H|].
  simpl. destruct (x =? id)%nat eqn:E; [reflexivity|].
  destruct H as [->|H]; [rewrite Nat.eqb_refl in E; discriminate|].
  simpl. rewrite (IH H). reflexivity.
Qed.

Lemma gateInv_init : gateInv initServer.
Proof. unfold gateInv, outstanding, holders. simpl. repeat split. unfold connLimit. lia. Qed.

Lemma gateInv_exec s cmd s' :
  gateInv s -> exec cmd s = Some s' -> gateInv s'.
Proof.
  intros (Hc & Ho & Hl) H. unfold exec in H.
  destruct (halted s); [discriminate|].
  unfold gateInv, outstanding, holders in *.
  destruct cmd as [| |id conn appendErr|].
  - destruct (handoff s) as [h|] eqn:Hh; [discriminate|].
    unfold trySend in H.
    destruct (length (buf (Sem (counter s))) <? cap (Sem (counter s)))%nat
      eqn:E; inversion H; subst; clear H; simpl.
    + apply Nat.ltb_lt in E. rewrite length_app. simpl in *.
      repeat split; [assumption|lia|lia].
    + simpl in *. repeat split; assumption.
  - destruct (handoff s) as [h|] eqn:Hh; [|discriminate].
    inversion H; subst; clear H; simpl in *. repeat split; assumption.
  - destruct (existsb (Nat.eqb id) (active s)) eqn:Ha; [|discriminate].
    apply existsb_eqb_In in Ha.
    destruct (handler_gate conn appendErr (counter s)) as (Hcap & Hg).
    cbv zeta in H.
    destruct (exit (handleConnection conn appendErr (counter s)));
      inversion H; subst; clear H; simpl.
    + destruct Hg as ((v & Hv) & _). rewrite Hv in Ho, Hl. simpl in Ho, Hl.
      rewrite length_app in *. pose proof (removeId_length id _ Ha).
      repeat split; [congruence|lia|lia].
    + destruct Hg as (Hb & _). rewrite Hb. repeat split; [congruence|assumption|assumption].
  - inversion H; subst; clear H; simpl. repeat split; assumption.
Qed.

Lemma reachable_gateInv s : reachable s -> gateInv s.
Proof.
  induction 1 as [|s cmd s' _ IH H].
  - apply gateInv_init.
  - apply (gateInv_exec s cmd s' IH H).
Qed.

(** A running handler always finds a token to give back. *)
Lemma handler_never_blocks s id conn appendErr :
  reachable s -> In id (active s) ->
  exit (handleConnection conn appendErr (counter s)) <> Blocked.
Proof.
  intros Hr Ha Hx. destruct (reachable_gateInv s Hr) as (_ & Ho & _).
  destruct (handler_gate conn appendErr (counter s)) as (_ & Hg).
  rewrite Hx in Hg. unfold outstanding, holders in Ho. rewrite Hg in Ho.
  rewrite length_app in Ho. destruct (active s); [destruct Ha|].
  simpl in Ho. lia.
Qed.

(** C5. The gate is created with capacity 6, and in every reachable state
    at most 6 tokens are outstanding; the connections under handling each
    hold one of them, hence are at most 6. *)
Theorem C5_gate_never_exceeds_capacity :
  forall s,
    reachable s ->
    cap (Sem (counter s)) = 6%nat /\
    (outstanding s <= 6)%nat /\
    (length (active s) <= outstanding s)%nat.
Proof.
  intros s Hr. destruct (reachable_gateInv s Hr) as (Hc & Ho & Hl).
  unfold connLimit in *. repeat split; try assumption.
  rewrite Ho. unfold holders. rewrite length_app. lia.
Qed.

Lemma reachable_stateAfter cmds : reachable (stateAfter cmds).
Proof.
  unfold stateAfter. destruct (execAll cmds initServer) as [s|] eqn:E.
  - apply (reachable_execAll cmds initServer s reach_init E).
  - apply reach_init.
Qed.

Lemma C5_witness :
  let s := stateAfter sevenAccepts in
  reachable s /\
  outstanding s = 6%nat /\ length (active s) = 6%nat /\
  count isRejected 6%nat (history s) = 1%nat /\
  cap (Sem (counter s)) = 6%nat /\
  (outstanding s <= 6)%nat /\
  (length (active s) <= outstanding s)%nat.
Proof.
  intros s.
  assert (Hr : reachable s) by apply reachable_stateAfter.
  split; [exact Hr|]. split; [reflexivity|]. split; [reflexivity|].
  split; [reflexivity|].
  exact (C5_gate_never_exceeds_capacity s Hr).
Defined.

(** ** Histories *)

Lemma count_app p id h1 h2 :
  count p id (h1 ++ h2)%list = (count p id h1 + count p id h2)%nat.
Proof.
  induction h1 as [|[i a] h1 IH]; [reflexivity|].
  simpl. rewrite IH. lia.
Qed.

Lemma count_le_any p id h : (count p id h <= count anyAction id h)%nat.
Proof.
  induction h as [|[i a] h IH]; [reflexivity|].
  simpl. destruct (i =? id)%nat, (p a); simpl; lia.
Qed.

Lemma count_events p id id' tr :
  count p id (map (fun e => (id', Handler e)) tr) =
    if (id' =? id)%nat then countEv (fun e => p (Handler e)) tr else 0%nat.
Proof.
  induction tr as [|e tr IH]; simpl.
  - destruct (id' =? id)%nat; reflexivity.
  - rewrite IH. destruct (id' =? id)%nat; reflexivity.
Qed.

Lemma countEv_none p tr : (forall e, p e = false) -> countEv p tr = 0%nat.
Proof.
  intros H. induction tr as [|e tr IH]; [reflexivity|].
  simpl. rewrite H, IH. reflexivity.
Qed.

Lemma count_handlerLog p id id' r :
  count p id (handlerLog id' r) =
    if (id' =? id)%nat
    then (countEv (fun e => p (Handler e)) (trace r)
          + (if p (Exited (exit r)) then 1 else 0))%nat
    else 0%nat.
Proof.
  unfold handlerLog. rewrite count_app, count_events. simpl.
  destruct (id' =? id)%nat; simpl; lia.
Qed.

Lemma removeId_subset id x l : x ∈ removeId id l -> x ∈ l.
Proof.
  induction l as [|y rest IH]; simpl; [trivial|].
  destruct (y =? id)%nat.
  - intros H. apply elem_of_cons. right. exact H.
  - intros H. apply elem_of_cons in H as [->|H].
    + apply elem_of_cons. left. reflexivity.
    + apply elem_of_cons. right. apply IH, H.
Qed.

Lemma removeId_NoDup id l :
  NoDup l -> NoDup (removeId id l) /\ id ∉ removeId id l.
Proof.
  induction 1 as [|y rest Hy Hn IH]; simpl.
  - split; [constructor|]. apply not_elem_of_nil.
  - destruct (y =? id)%nat eqn:E.
    + apply Nat.eqb_eq in E. subst y. split; assumption.
    + apply Nat.eqb_neq in E. destruct IH as [IH1 IH2]. split.
      * constructor; [|exact IH1]. intros Hx. apply Hy.
        apply (removeId_subset id), Hx.
      * intros Hx. apply elem_of_cons in Hx as [Hx|Hx]; [congruence|auto].
Qed.

Lemma count_snoc p id h i a :
  count p id (h ++ [(i, a)])%list =
    (count p id h + (if (i =? id)%nat && p a then 1 else 0))%nat.
Proof. rewrite count_app. simpl. lia. Qed.

Ltac counts :=
  unfold acquired, rejected, handled, released, returned, died in *;
  cbn [history] in *;
  rewrite ?count_snoc, ?count_app, ?count_handlerLog in *;
  cbn [isAcquired isRejected isHandler isReleaseEv isReturn isExitFatal
       anyAction andb] in *.

Lemma histInv_init : histInv initServer.
Proof.
  constructor; simpl; unfold acquired, rejected, handled, released, returned,
    died; simpl.
  - constructor.
  - intros id H. apply elem_of_nil in H. destruct H.
  - reflexivity.
  - intros id. repeat split; lia.
  - reflexivity.
Qed.

(** An entry for a connection number that was never in use. *)
Lemma histInv_accept s a (ho : option ConnId) c :
  histInv s -> halted s = false -> handoff s = None ->
  (a = Acquired /\ ho = Some (next s) \/
   (exists m, a = Rejected m) /\ ho = None) ->
  histInv (mkServer c ho (active s) (S (next s)) false
             (history s ++ [(next s, a)])).
Proof.
  intros [Hn Hh Hf Hp Ha] Hl Ho Hc.
  assert (Hold : forall id, id ∈ active s -> id ∈ holders s).
  { intros id H. unfold holders. rewrite Ho. exact H. }
  assert (Hz : forall p, count p (next s) (history s) = 0%nat).
  { intros p. pose proof (count_le_any p (next s) (history s)).
    rewrite (Hf (next s)) in H by lia. lia. }
  constructor; unfold holders in *; cbn [handoff active next history halted].
  - destruct Hc as [[_ ->]|[_ ->]]; simpl.
    + constructor; [|rewrite Ho in Hn; exact Hn].
      intros Hx. apply Hold, Hh in Hx. lia.
    + rewrite Ho in Hn. exact Hn.
  - intros id Hin.
    assert (Hcase : id = next s /\ a = Acquired \/ id ∈ active s).
    { destruct Hc as [[-> ->]|[_ ->]]; simpl in Hin.
      - apply elem_of_cons in Hin as [->|Hin]; [left; split; reflexivity|].
        right. exact Hin.
      - right. exact Hin. }
    destruct Hcase as [[-> ->]|Hin'].
    + counts. rewrite !Hz, Nat.eqb_refl. simpl. repeat split; lia.
    + destruct (Hh id (Hold id Hin')) as (H1 & H2 & H3 & H4).
      counts. assert (E : (next s =? id)%nat = false)
        by (apply Nat.eqb_neq; lia).
      rewrite E. simpl. repeat split; lia.
  - intros id Hid. rewrite count_snoc.
    assert (E : (next s =? id)%nat = false) by (apply Nat.eqb_neq; lia).
    rewrite E, Hf by lia. reflexivity.
  - intros id. destruct (Hp id) as (H1 & H2 & H3 & H4 & H5).
    counts. destruct (next s =? id)%nat eqn:E.
    + apply Nat.eqb_eq in E. subst id.
      pose proof (Hz isAcquired). pose proof (Hz isRejected).
      pose proof (Hz isHandler). pose proof (Hz isReleaseEv).
      pose proof (Hz isReturn). pose proof (Hz isExitFatal).
      destruct Hc as [[-> _]|[[m ->] _]]; simpl; repeat split; lia.
    + simpl. rewrite !Nat.add_0_r. repeat split; assumption.
  - intros _ id. counts. pose proof (Ha Hl id) as Hd. unfold died in Hd.
    destruct Hc as [[-> _]|[[m ->] _]]; simpl; rewrite andb_false_r; lia.
Qed.

Lemma histInv_dispatch s id0 :
  histInv s -> halted s = false -> handoff s = Some id0 ->
  histInv (mkServer (counter s) None (id0 :: active s) (next s) false
             (history s ++ [(id0, Dispatched)])).
Proof.
  intros [Hn Hh Hf Hp Ha] Hl Ho.
  constructor; unfold holders in *; cbn [handoff active next history halted].
  - rewrite Ho in Hn. exact Hn.
  - intros id Hin. simpl in Hin. rewrite Ho in Hh.
    destruct (Hh id Hin) as (H1 & H2 & H3 & H4).
    counts. rewrite !andb_false_r, !Nat.add_0_r. repeat split; assumption.
  - intros id Hid. rewrite count_snoc, Hf by exact Hid.
    assert (Hlt : (id0 < next s)%nat).
    { apply (Hh id0). rewrite Ho. apply elem_of_cons. left. reflexivity. }
    assert (E : (id0 =? id)%nat = false) by (apply Nat.eqb_neq; lia).
    rewrite E. reflexivity.
  - intros id. destruct (Hp id) as (H1 & H2 & H3 & H4 & H5).
    counts. rewrite !andb_false_r, !Nat.add_0_r. repeat split; assumption.
  - intros _ id. counts. rewrite andb_false_r, Nat.add_0_r.
    apply (Ha Hl id).
Qed.

(** What a handler's entries add to the counts of a connection. *)
Lemma handlerLog_counts id id0 conn appendErr c :
  let r := handleConnection conn appendErr c in
  exit r <> Blocked ->
  count isAcquired id (handlerLog id0 r) = 0%nat /\
  count isRejected id (handlerLog id0 r) = 0%nat /\
  count isReleaseEv id (handlerLog id0 r) =
    (if (id0 =? id)%nat && negb (isExitFatal (Exited (exit r)))
     then 1 else 0)%nat /\
  count isReturn id (handlerLog id0 r) =
    (if (id0 =? id)%nat && negb (isExitFatal (Exited (exit r)))
     then 1 else 0)%nat /\
  count isExitFatal id (handlerLog id0 r) =
    (if (id0 =? id)%nat && isExitFatal (Exited (exit r))
     then 1 else 0)%nat.
Proof.
  intros r Hb. rewrite !count_handlerLog.
  destruct (handler_gate conn appendErr c) as (_ & Hg). fold r in Hg.
  change (fun e => isReleaseEv (Handler e)) with isRelease.
  rewrite !(countEv_none (fun e => _ (Handler e))) by reflexivity.
  destruct (id0 =? id)%nat; [|repeat split; reflexivity].
  destruct (exit r); [| |contradiction].
  - destruct Hg as (_ & ->). repeat split; reflexivity.
  - destruct Hg as (_ & ->). repeat split; reflexivity.
Qed.

Lemma histInv_handle s id0 conn appendErr :
  let r := handleConnection conn appendErr (counter s) in
  histInv s -> halted s = false -> id0 ∈ active s -> exit r <> Blocked ->
  histInv (mkServer (final r) (handoff s)
             (if isExitFatal (Exited (exit r)) then active s
              else removeId id0 (active s))
             (next s) (isExitFatal (Exited (exit r)))
             (history s ++ handlerLog id0 r)).
Proof.
  intros r [Hn Hh Hf Hp Ha] Hl Hin Hb.
  assert (Hin0 : id0 ∈ holders s).
  { unfold holders. apply elem_of_app. right. exact Hin. }
  destruct (Hh id0 Hin0) as (K1 & K2 & K3 & K4).
  assert (Hsub : forall id,
             id ∈ (match handoff s with Some i => [i] | None => [] end
                   ++ removeId id0 (active s))%list ->
             id ∈ holders s /\ id <> id0).
  { intros id Hx. unfold holders in *. apply NoDup_app in Hn as (N1 & N2 & N3).
    apply elem_of_app in Hx as [Hx|Hx].
    - split; [apply elem_of_app; left; exact Hx|].
      intros ->. apply (N2 id0 Hx Hin).
    - split; [apply elem_of_app; right; apply (removeId_subset id0), Hx|].
      intros ->. apply (removeId_NoDup id0 _ N3), Hx. }
  pose proof (fun id => handlerLog_counts id id0 conn appendErr (counter s) Hb)
    as HL. fold r in HL.
  constructor; unfold holders in *; cbn [handoff active next history halted].
  - destruct (isExitFatal (Exited (exit r))); [exact Hn|].
    apply NoDup_app in Hn as (N1 & N2 & N3). apply NoDup_app.
    split; [exact N1|]. split.
    + intros x Hx Hy. apply (N2 x Hx). apply (removeId_subset id0), Hy.
    + apply (removeId_NoDup id0 _ N3).
  - intros id Hx. destruct (HL id) as (L1 & L2 & L3 & L4 & L5).
    unfold acquired, released, returned. cbn [history]. rewrite !count_app.
    rewrite L1, L3, L4.
    destruct (isExitFatal (Exited (exit r))) eqn:EF.
    + destruct (Hh id Hx) as (H1 & H2 & H3 & H4).
      unfold acquired, released, returned in *.
      rewrite andb_false_r. repeat split; lia.
    + destruct (Hsub id Hx) as (Hy & Hne).
      destruct (Hh id Hy) as (H1 & H2 & H3 & H4).
      unfold acquired, released, returned in *.
      assert (E : (id0 =? id)%nat = false) by (apply Nat.eqb_neq; congruence).
      rewrite E. simpl. repeat split; lia.
  - intros id Hid. rewrite count_app, count_handlerLog, Hf by exact Hid.
    assert (E : (id0 =? id)%nat = false) by (apply Nat.eqb_neq; lia).
    rewrite E. reflexivity.
  - intros id. destruct (HL id) as (L1 & L2 & L3 & L4 & L5).
    destruct (Hp id) as (H1 & H2 & H3 & H4 & H5).
    pose proof (Ha Hl id) as Hd.
    unfold acquired, rejected, handled, released, returned, died in *.
    cbn [history]. rewrite !count_app. rewrite L1, L2, L3, L4, L5.
    destruct (id0 =? id)%nat eqn:E.
    + apply Nat.eqb_eq in E. subst id.
      destruct (isExitFatal (Exited (exit r))); simpl; repeat split; lia.
    + rewrite count_handlerLog, E. simpl. repeat split; lia.
  - intros Hx id. destruct (HL id) as (_ & _ & _ & _ & L5).
    unfold died. cbn [history]. rewrite count_app, L5, Hx, andb_false_r.
    pose proof (Ha Hl id) as Hd. unfold died in Hd. lia.
Qed.

Lemma histInv_signal s :
  histInv s ->
  histInv (mkServer (counter s) (handoff s) (active s) (next s) true
             (history s)).
Proof.
  intros [Hn Hh Hf Hp Ha]. constructor; try assumption. discriminate.
Qed.

Lemma histInv_exec s cmd s' :
  histInv s -> exec cmd s = Some s' -> histInv s'.
Proof.
  intros Hi H. unfold exec in H.
  destruct (halted s) eqn:Hl; [discriminate|].
  destruct cmd as [| |id conn appendErr|].
  - destruct (handoff s) as [h|] eqn:Ho; [discriminate|].
    destruct (trySend 1 (Sem (counter s))) as [ch|];
      inversion H; subst; clear H.
    + apply (histInv_accept s Acquired); try assumption.
      left. split; reflexivity.
    + apply (histInv_accept s (Rejected busy)); try assumption.
      right. split; [exists busy|]; reflexivity.
  - destruct (handoff s) as [h|] eqn:Ho; [|discriminate].
    inversion H; subst; clear H. apply histInv_dispatch; assumption.
  - destruct (existsb (Nat.eqb id) (active s)) eqn:E; [|discriminate].
    apply existsb_eqb_In, list_elem_of_In in E. cbv zeta in H.
    pose proof (histInv_handle s id conn appendErr Hi Hl E) as G.
    cbv zeta in G.
    destruct (exit (handleConnection conn appendErr (counter s)));
      inversion H; subst; clear H; apply G; discriminate.
  - inversion H; subst; clear H. apply histInv_signal, Hi.
Qed.

Lemma reachable_histInv s : reachable s -> histInv s.
Proof.
  induction 1 as [|s cmd s' _ IH H].
  - apply histInv_init.
  - apply (histInv_exec s cmd s' IH H).
Qed.

(** C6 (as stated, refuted). One connection is let in and dispatched, and
    its read fails with an error other than the end of the stream: the
    handler has run and ended, the token was acquired, and no release
    follows, since [log.Fatalf] exits without running the deferred
    closure. *)
Lemma C6_counterexample :
  let s := stateAfter
             [Accept; Dispatch;
              Handle 0%nat (mkConn "12345" (ReadFault "connection reset"))
                None] in
  reachable s /\
  acquired 0%nat s = 1%nat /\ died 0%nat s = 1%nat /\
  (1 <= handled 0%nat s)%nat /\
  released 0%nat s = 0%nat /\ outstanding s = 1%nat.
Proof.
  intros s. split; [apply reachable_stateAfter|].
  vm_compute. repeat split; lia.
Qed.

Lemma count_le p q id h :
  (forall a, p a = true -> q a = true) ->
  (count p id h <= count q id h)%nat.
Proof.
  intros H. induction h as [|[i a] h IH]; [reflexivity|].
  simpl. destruct (i =? id)%nat; simpl; [|exact IH].
  destruct (p a) eqn:E; [rewrite (H a E)|destruct (q a)]; lia.
Qed.

(** C6 (amended). In every reachable state and for every connection: a
    release is never without its acquisition and an acquisition happens at
    most once; a connection that acquired no token (it was rejected, or has
    not arrived) ran no handling logic and released nothing; a handler that
    returned (normal return, validation failure, clean end of stream)
    released exactly once; a handler that ended the process in [log.Fatalf]
    released nothing. *)
Theorem C6_release_paired_with_acquisition :
  forall s,
    reachable s ->
    forall id,
      (released id s <= acquired id s)%nat /\
      (acquired id s + rejected id s <= 1)%nat /\
      (acquired id s = 0%nat ->
       handled id s = 0%nat /\ released id s = 0%nat) /\
      (1 <= returned id s -> acquired id s = 1 /\ released id s = 1)%nat /\
      (1 <= died id s -> acquired id s = 1 /\ released id s = 0)%nat.
Proof.
  intros s Hr id.
  destruct (reachable_histInv s Hr) as [_ _ _ Hp _].
  destruct (Hp id) as (H1 & H2 & H3 & H4 & H5).
  assert (Hret : (returned id s <= handled id s)%nat).
  { apply count_le. intros [| | | |[]]; simpl; congruence. }
  assert (Hdie : (died id s <= handled id s)%nat).
  { apply count_le. intros [| | | |[]]; simpl; congruence. }
  split; [exact H1|]. split; [exact H2|]. split; [|split].
  - intros H0. split; [apply H3, H0|lia].
  - intros Hx. specialize (H4 Hx). lia.
  - intros Hx. specialize (H5 Hx).
    split; [|exact H5].
    destruct (acquired id s) as [|[|n]] eqn:E; [|reflexivity|lia].
    specialize (H3 eq_refl). lia.
Qed.

Lemma C6_witness :
  let s := stateAfter
             (sevenAccepts ++
              [Handle 2%nat (mkConn "1234567890" EOF) None;
               Handle 4%nat (mkConn EmptyString EOF) None;
               Handle 0%nat (mkConn ("123456789" +:+ nlStr) EOF) None])%list in
  reachable s /\
  (returned 2%nat s = 1 /\ returned 4%nat s = 1 /\ returned 0%nat s = 1)%nat /\
  rejected 6%nat s = 1%nat /\
  acquired 6%nat s = 0%nat /\
  (handled 6%nat s = 0%nat /\ released 6%nat s = 0%nat) /\
  (acquired 2%nat s = 1 /\ released 2%nat s = 1)%nat.
Proof.
  intros s.
  assert (Hr : reachable s) by apply reachable_stateAfter.
  split; [exact Hr|]. split; [repeat split; reflexivity|].
  split; [reflexivity|]. split; [reflexivity|].
  pose proof (C6_release_paired_with_acquisition s Hr 6%nat)
    as (_ & _ & H6 & _).
  pose proof (C6_release_paired_with_acquisition s Hr 2%nat)
    as (_ & _ & _ & H2 & _).
  split; [apply H6; reflexivity|apply H2; vm_compute; lia].
Defined.

(** * Further properties of the handler *)

(** ** One line per connection *)

Lemma upTo_first_line pre rest :
  upTo nl pre = None ->
  upTo nl (pre +:+ nlStr +:+ rest) = Some (pre +:+ nlStr).
Proof.
  induction pre as [|ch pre IH]; intros H.
  - reflexivity.
  - rewrite !append_cons. cbn [upTo] in *.
    destruct (Ascii.eqb ch nl); [discriminate|].
    destruct (upTo nl pre) as [l|] eqn:U; [discriminate|].
    rewrite (IH eq_refl). reflexivity.
Qed.

(** X1. The handler reads one line and no more: what the client sends
    after its first newline, and how its stream ends afterwards, changes
    nothing in the run. *)
Theorem X1_only_the_first_line_is_read :
  forall pre rest e e' appendErr c,
    upTo nl pre = None ->
    handleConnection (mkConn (pre +:+ nlStr +:+ rest) e) appendErr c =
    handleConnection (mkConn (pre +:+ nlStr) e') appendErr c.
Proof.
  intros pre rest e e' appendErr c H.
  unfold handleConnection, handleConnectionWith, handleBody, ReadString.
  cbn [sent].
  rewrite (upTo_first_line pre rest H).
  pose proof (upTo_first_line pre EmptyString H) as H0.
  assert (E : pre +:+ nlStr +:+ EmptyString = pre +:+ nlStr).
  { clear. induction pre as [|ch pre IH]; [reflexivity|].
    rewrite !append_cons, IH. reflexivity. }
  rewrite E in H0. rewrite H0. reflexivity.
Qed.

Lemma X1_witness :
  upTo nl "12345" = None /\
  handleConnection
    (mkConn ("12345" +:+ nlStr +:+ "1234567890")
       (ReadFault "connection reset")) None oneToken =
  handleConnection (mkConn ("12345" +:+ nlStr) EOF) None oneToken.
Proof.
  split; [reflexivity|].
  exact (X1_only_the_first_line_is_read "12345" "1234567890"
           (ReadFault "connection reset") EOF None oneToken eq_refl).
Defined.

(** ** Every run is one of six *)

Lemma delivered_or_fault conn :
  (exists s, delivered conn s) \/
  (exists s msg, ReadString nl conn = (s, Some (ReadFault msg))).
Proof.
  destruct (ReadString nl conn) as [s [[|msg]|]] eqn:E.
  - left. exists s. right. exact E.
  - right. exists s, msg. reflexivity.
  - left. exists s. left. exact E.
Qed.

Lemma body_cases conn appendErr c :
  let b := handleBody strconv.Atoi conn appendErr c in
  (exists s msg, ReadString nl conn = (s, Some (ReadFault msg)) /\
     b = mkRun Fatal c [EvFatal (fatalRead msg)]) \/
  (exists s, delivered conn s /\ len s <> validLen /\
     b = mkRun Returned c [EvWrite (errLength (len s))]) \/
  (exists s e, delivered conn s /\ len s = validLen /\
     strconv.Atoi s = inl e /\
     b = mkRun Returned c [EvWrite errNumber]) \/
  (exists s num, delivered conn s /\ len s = validLen /\
     strconv.Atoi s = inr num /\ num < minValue /\
     b = mkRun Returned c [EvWrite errRange]) \/
  (exists s num, delivered conn s /\ len s = validLen /\
     strconv.Atoi s = inr num /\ minValue <= num /\
     exists c' tail,
       b = mkRun Returned c'
             ([EvInc; EvWrite (echo num); EvHasValue num] ++ tail) /\
       (tail = [] \/ tail = [EvRecordUniq num])) \/
  (exists s num msg, delivered conn s /\ len s = validLen /\
     strconv.Atoi s = inr num /\ minValue <= num /\ appendErr = Some msg /\
     exists c',
       b = mkRun Fatal c'
             [EvInc; EvWrite (echo num); EvHasValue num; EvRecordUniq num;
              EvFatal (fatalRecord msg)]).
Proof.
  intros b. subst b.
  destruct (delivered_or_fault conn) as [[s Hd]|(s & msg & Hf)].
  2:{ left. exists s, msg. split; [exact Hf|].
      apply (body_read_fault _ _ _ _ s msg Hf). }
  right.
  destruct (Z.eq_dec (len s) validLen) as [Hl|Hl].
  2:{ left. exists s. repeat split; try assumption.
      apply (body_bad_length _ _ _ _ s Hd Hl). }
  right.
  destruct (strconv.Atoi s) as [e|num] eqn:Hp.
  { left. exists s, e. repeat split; try assumption.
    apply (body_bad_format _ _ _ _ s Hd e Hl Hp). }
  right.
  destruct (Z.lt_ge_cases num minValue) as [Hm|Hm].
  { left. exists s, num. repeat split; try assumption.
    apply (body_below_min _ _ _ _ s Hd num Hl Hp Hm). }
  right.
  destruct (decide (num ∈ dedup c)) as [Hin|Hin].
  { left. exists s, num. repeat split; try assumption.
    exists (Inc c), []. split; [|left; reflexivity].
    apply (body_seen _ _ _ _ s Hd num Hl Hp Hm Hin). }
  pose proof (body_new _ conn appendErr c s Hd num Hl Hp Hm Hin) as Hb.
  destruct appendErr as [msg|].
  - right. exists s, num, msg. repeat split; try assumption.
    eexists. exact Hb.
  - left. exists s, num. repeat split; try assumption.
    eexists. exists [EvRecordUniq num]. split; [exact Hb|right; reflexivity].
Qed.

(** A line of the valid length that parses was cut by the end of the
    stream, not by a newline. *)
Lemma parsed_line_ended_by_EOF conn s num :
  delivered conn s -> len s = validLen -> strconv.Atoi s = inr num ->
  ReadString nl conn = (s, Some EOF).
Proof.
  intros [Hr|Hr] Hl Hp; [|exact Hr]. exfalso.
  unfold ReadString in Hr.
  destruct (upTo nl (sent conn)) as [line|] eqn:U; [|discriminate].
  inversion Hr; subst line.
  destruct (upTo_ends_with_delim _ _ _ U) as [pre ->].
  pose proof (Atoi_newline pre Hl) as X. unfold nlStr in X.
  rewrite X in Hp. discriminate.
Qed.

(** X2. A run counts a request (calls [Inc]) at most once, and only when
    the read ended with [io.EOF] on exactly ten bytes that [Atoi] takes for
    a number of at least 1,000,000, which is then the number echoed; every
    other run calls no operation of the counter.  So no line that ends in a
    newline is ever counted. *)
Theorem X2_counted_requests_characterised :
  forall conn appendErr c,
    let r := handleConnection conn appendErr c in
    (countEv isInc (trace r) = 1%nat /\
     exists s num,
       ReadString nl conn = (s, Some EOF) /\ len s = validLen /\
       strconv.Atoi s = inr num /\ minValue <= num /\
       writes (trace r) = [echo num]) \/
    (countEv isInc (trace r) = 0%nat /\
     countEv isCounterCall (trace r) = 0%nat).
Proof.
  intros conn appendErr c r. subst r.
  unfold handleConnection, handleConnectionWith.
  rewrite deferred_writes, !deferred_countEv by reflexivity.
  destruct (body_cases conn appendErr c)
    as [(s & msg & _ & ->)
       |[(s & _ & _ & ->)
        |[(s & e & _ & _ & _ & ->)
         |[(s & num & _ & _ & _ & _ & ->)
          |[(s & num & Hd & Hl & Hp & Hm & c' & tail & -> & Ht)
           |(s & num & msg & Hd & Hl & Hp & Hm & _ & c' & ->)]]]]];
    try (right; split; reflexivity).
  - left. cbn [trace]. split.
    + destruct Ht as [->| ->]; reflexivity.
    + exists s, num. repeat split; try assumption.
      * apply (parsed_line_ended_by_EOF conn s num Hd Hl Hp).
      * destruct Ht as [->| ->]; reflexivity.
  - left. cbn [trace]. split; [reflexivity|].
    exists s, num. repeat split; try assumption.
    apply (parsed_line_ended_by_EOF conn s num Hd Hl Hp).
Qed.

(** X3. What the client is sent depends on what it sent alone: neither the
    state of the counter nor the fate of the log append changes the bytes
    written, and a run writes at most once. *)
Theorem X3_response_depends_on_request_only :
  forall conn appendErr appendErr' c c',
    writes (trace (handleConnection conn appendErr c)) =
    writes (trace (handleConnection conn appendErr' c')) /\
    (length (writes (trace (handleConnection conn appendErr c))) <= 1)%nat.
Proof.
  intros conn a a' c c'.
  unfold handleConnection, handleConnectionWith.
  rewrite !deferred_writes.
  assert (G : forall a c,
             exists w, (length w <= 1)%nat /\
               writes (trace (handleBody strconv.Atoi conn a c)) = w /\
               forall a' c',
                 writes (trace (handleBody strconv.Atoi conn a' c')) = w).
  { clear. intros a c.
    destruct (delivered_or_fault conn) as [[s Hd]|(s & msg & Hf)].
    2:{ exists []. split; [simpl; lia|]. split; [|intros a' c'];
        rewrite (body_read_fault _ _ _ _ s msg Hf); reflexivity. }
    destruct (Z.eq_dec (len s) validLen) as [Hl|Hl].
    2:{ exists [errLength (len s)]. split; [simpl; lia|].
        split; [|intros a' c'];
        rewrite (body_bad_length _ _ _ _ s Hd Hl); reflexivity. }
    destruct (strconv.Atoi s) as [e|num] eqn:Hp.
    { exists [errNumber]. split; [simpl; lia|]. split; [|intros a' c'];
      rewrite (body_bad_format _ _ _ _ s Hd e Hl Hp); reflexivity. }
    destruct (Z.lt_ge_cases num minValue) as [Hm|Hm].
    { exists [errRange]. split; [simpl; lia|]. split; [|intros a' c'];
      rewrite (body_below_min _ _ _ _ s Hd num Hl Hp Hm); reflexivity. }
    assert (W : forall a c,
               writes (trace (handleBody strconv.Atoi conn a c)) =
               [echo num]).
    { intros a0 c0. destruct (decide (num ∈ dedup c0)) as [Hin|Hin].
      - rewrite (body_seen _ _ _ _ s Hd num Hl Hp Hm Hin). reflexivity.
      - rewrite (body_new _ _ _ _ s Hd num Hl Hp Hm Hin).
        destruct a0; reflexivity. }
    exists [echo num]. split; [simpl; lia|]. split; [apply W|].
    intros a' c'. apply W. }
  destruct (G a c) as (w & Hlen & Hw & Hall).
  rewrite Hw, (Hall a' c'). split; [reflexivity|exact Hlen].
Qed.

(** ** Closing and releasing *)

(** X4. A run that returns ends with the connection closed and then the
    token given back, in that order and once each, after everything else it
    did; a run that ends the process neither closes the connection nor gives
    the token back, and its last act is the fatal log line.  A run can only
    block when it is started without a token in the gate. *)
Theorem X4_close_then_release_on_return_only :
  forall conn appendErr c,
    let r := handleConnection conn appendErr c in
    match exit r with
    | Returned =>
        exists body,
          trace r = (body ++ [EvClose; EvRelease])%list /\
          countEv isClose body = 0%nat /\ countEv isRelease body = 0%nat
    | Fatal =>
        countEv isClose (trace r) = 0%nat /\
        countEv isRelease (trace r) = 0%nat /\
        exists pre msg, trace r = (pre ++ [EvFatal msg])%list
    | Blocked => buf (Sem c) = []
    end.
Proof.
  intros conn appendErr c r. subst r.
  unfold handleConnection, handleConnectionWith.
  destruct (body_keeps_gate strconv.Atoi conn appendErr c) as (Hs & _ & _).
  cbv zeta in Hs. unfold deferred, recv. rewrite Hs.
  destruct (body_cases conn appendErr c)
    as [(s & msg & _ & ->)
       |[(s & _ & _ & ->)
        |[(s & e & _ & _ & _ & ->)
         |[(s & num & _ & _ & _ & _ & ->)
          |[(s & num & _ & _ & _ & _ & c' & tail & -> & Ht)
           |(s & num & msg & _ & _ & _ & _ & _ & c' & ->)]]]]];
    cbn [exit trace final].
  - repeat split; try reflexivity. exists [], (fatalRead msg). reflexivity.
  - destruct (buf (Sem c)); cbn [exit trace]; [reflexivity|].
    eexists. repeat split; reflexivity.
  - destruct (buf (Sem c)); cbn [exit trace]; [reflexivity|].
    eexists. repeat split; reflexivity.
  - destruct (buf (Sem c)); cbn [exit trace]; [reflexivity|].
    eexists. repeat split; reflexivity.
  - destruct (buf (Sem c)); cbn [exit trace]; [reflexivity|].
    eexists. split; [reflexivity|].
    destruct Ht as [->| ->]; split; reflexivity.
  - repeat split; try reflexivity.
    exists [EvInc; EvWrite (echo num); EvHasValue num; EvRecordUniq num],
      (fatalRecord msg). reflexivity.
Qed.

(** ** The numbers that get through *)

Lemma subByte_range a b : 0 <= strconv.subByte a b < 256.
Proof. unfold strconv.subByte. apply Z.mod_pos_bound. lia. Qed.

Lemma fastDigits_bounds s n m :
  0 <= n -> strconv.fastDigits s n = Some m ->
  n * 10 ^ len s <= m <= n * 10 ^ len s + (10 ^ len s - 1).
Proof.
  revert n. induction s as [|ch rest IH]; intros n Hn H.
  - simpl in H. inversion H; subst. change (len EmptyString) with 0.
    rewrite Z.pow_0_r. lia.
  - cbn [strconv.fastDigits] in H. cbv zeta in H.
    pose proof (subByte_range ch "0") as Hd.
    destruct (9 <? strconv.subByte ch "0") eqn:E; [discriminate|].
    apply Z.ltb_ge in E.
    specialize (IH (n * 10 + strconv.subByte ch "0") ltac:(lia) H).
    rewrite len_cons.
    assert (Hp : 0 < 10 ^ len rest)
      by (apply Z.pow_pos_nonneg; [lia|unfold len; lia]).
    rewrite Z.pow_add_r by (unfold len; lia).
    change (10 ^ 1) with 10. nia.
Qed.

(** What [Atoi] can make of ten bytes: with a minus sign nothing above
    zero, and never more than ten nines. *)
Lemma Atoi_ten_bytes s num :
  len s = validLen -> strconv.Atoi s = inr num ->
  num <= maxTenDigits /\
  (forall rest, s = String "-" rest -> num <= 0).
Proof.
  intros Hl Hp. unfold strconv.Atoi in Hp. cbv zeta in Hp. rewrite Hl in Hp.
  change ((strconv.intSize =? 32) && ((0 <? validLen) && (validLen <? 10))
          || (strconv.intSize =? 64) && ((0 <? validLen) && (validLen <? 19)))
    with true in Hp. cbv iota in Hp.
  destruct s as [|s0 rest]; [discriminate Hl|].
  rewrite len_cons in Hl. unfold validLen in Hl.
  unfold strconv.fastPath in Hp. cbv zeta in Hp.
  assert (Hrest : len rest = 9) by lia.
  destruct (strconv.isSign s0) eqn:Es.
  - rewrite Hrest in Hp. change (9 <? 1) with false in Hp. cbv iota in Hp.
    destruct (strconv.fastDigits rest 0) as [n|] eqn:F; [|discriminate].
    pose proof (fastDigits_bounds rest 0 n ltac:(lia) F) as B.
    rewrite Hrest in B. change (10 ^ 9) with 1000000000 in B.
    inversion Hp; subst num. unfold maxTenDigits.
    destruct (Ascii.eqb s0 "-") eqn:Em; split;
      try (intros r Hr; inversion Hr; subst; discriminate Em); lia.
  - destruct (strconv.fastDigits (String s0 rest) 0) as [n|] eqn:F;
      [|discriminate].
    pose proof (fastDigits_bounds (String s0 rest) 0 n ltac:(lia) F) as B.
    rewrite len_cons, Hrest in B. change (10 ^ (1 + 9)) with 10000000000 in B.
    assert (Em : Ascii.eqb s0 "-" = false).
    { unfold strconv.isSign in Es. apply orb_false_iff in Es. tauto. }
    rewrite Em in Hp. inversion Hp; subst num. unfold maxTenDigits.
    split; [lia|]. intros r Hr. inversion Hr; subst. discriminate Em.
Qed.

(** X5. A request that begins with a minus sign is never counted: it is
    answered with the length error, the format error or the range error,
    and no operation of the counter is called. *)
Theorem X5_negative_numbers_never_counted :
  forall conn rest appendErr c,
    delivered conn (String "-" rest) ->
    let r := handleConnection conn appendErr c in
    countEv isCounterCall (trace r) = 0%nat /\
    (writes (trace r) = [errLength (len (String "-" rest))] \/
     writes (trace r) = [errNumber] \/
     writes (trace r) = [errRange]).
Proof.
  intros conn rest appendErr c Hd r. subst r.
  set (s := String "-" rest) in *.
  assert (G : forall m,
             handleBody strconv.Atoi conn appendErr c =
               mkRun Returned c [EvWrite m] ->
             countEv isCounterCall
               (trace (handleConnection conn appendErr c)) = 0%nat /\
             writes (trace (handleConnection conn appendErr c)) = [m]).
  { intros m Hb. destruct (rejected_run _ _ _ _ m Hb) as (Hw & _ & Hc & _).
    split; assumption. }
  destruct (Z.eq_dec (len s) validLen) as [Hl|Hl].
  2:{ destruct (G _ (body_bad_length _ _ appendErr c s Hd Hl)) as [Hc Hw].
      split; [exact Hc|]. left. exact Hw. }
  destruct (strconv.Atoi s) as [e|num] eqn:Hp.
  { destruct (G _ (body_bad_format _ _ appendErr c s Hd e Hl Hp)) as [Hc Hw].
    split; [exact Hc|]. right. left. exact Hw. }
  destruct (Atoi_ten_bytes s num Hl Hp) as [_ Hneg].
  assert (Hm : num < minValue)
    by (specialize (Hneg rest eq_refl); unfold minValue; lia).
  destruct (G _ (body_below_min _ _ appendErr c s Hd num Hl Hp Hm))
    as [Hc Hw].
  split; [exact Hc|]. right. right. exact Hw.
Qed.

Lemma X5_witness :
  delivered (mkConn "-999999999" EOF) "-999999999" /\
  let r := handleConnection (mkConn "-999999999" EOF) None oneToken in
  countEv isCounterCall (trace r) = 0%nat /\
  (writes (trace r) = [errLength (len "-999999999")] \/
   writes (trace r) = [errNumber] \/
   writes (trace r) = [errRange]).
Proof.
  assert (Hd : delivered (mkConn "-999999999" EOF) "-999999999")
    by (right; reflexivity).
  split; [exact Hd|].
  exact (X5_negative_numbers_never_counted (mkConn "-999999999" EOF)
           "999999999" None oneToken Hd).
Defined.

(** X6. Every number a run counts lies between 1,000,000 and
    9,999,999,999: it is the number echoed, the only number looked up, and
    the only number handed to [RecordUniq]. *)
Theorem X6_counted_numbers_are_bounded :
  forall conn appendErr c,
    let r := handleConnection conn appendErr c in
    countEv isInc (trace r) = 1%nat ->
    exists num,
      minValue <= num <= maxTenDigits /\
      writes (trace r) = [echo num] /\
      (forall n, In (EvHasValue n) (trace r) -> n = num) /\
      (forall n, In (EvRecordUniq n) (trace r) -> n = num).
Proof.
  intros conn appendErr c r. subst r.
  unfold handleConnection, handleConnectionWith.
  rewrite deferred_writes, deferred_countEv by reflexivity.
  assert (Hin : forall e,
             In e (trace (deferred (handleBody strconv.Atoi conn appendErr c)))
             -> In e (trace (handleBody strconv.Atoi conn appendErr c)) \/
                e = EvClose \/ e = EvRelease).
  { intros e. unfold deferred.
    set (b := handleBody strconv.Atoi conn appendErr c).
    destruct (exit b); [|intros H; left; exact H|intros H; left; exact H].
    destruct (recv (Sem (final b))) as [[v ch]|]; cbn [trace];
      rewrite in_app_iff; simpl; intuition congruence. }
  destruct (body_cases conn appendErr c)
    as [(s & msg & _ & Hb)
       |[(s & _ & _ & Hb)
        |[(s & e & _ & _ & _ & Hb)
         |[(s & num & _ & _ & _ & _ & Hb)
          |[(s & num & _ & Hl & Hp & Hm & c' & tail & Hb & Ht)
           |(s & num & msg & _ & Hl & Hp & Hm & _ & c' & Hb)]]]]];
    rewrite Hb in *; cbn [trace] in *; try discriminate; intros _;
    exists num; (split; [split; [exact Hm|apply (Atoi_ten_bytes s num Hl Hp)]|]).
  - split; [destruct Ht as [->| ->]; reflexivity|].
    split; intros n H; apply Hin in H as [H|[H|H]]; try discriminate;
      destruct Ht as [->| ->]; simpl in H;
      repeat (destruct H as [H|H]; try discriminate; try (inversion H; reflexivity));
      destruct H.
  - split; [reflexivity|].
    split; intros n H; apply Hin in H as [H|[H|H]]; try discriminate;
      simpl in H;
      repeat (destruct H as [H|H]; try discriminate; try (inversion H; reflexivity));
      destruct H.
Qed.

Lemma X6_witness :
  let r := handleConnection (mkConn "9999999999" EOF) None oneToken in
  countEv isInc (trace r) = 1%nat /\
  exists num,
    minValue <= num <= maxTenDigits /\
    writes (trace r) = [echo num] /\
    (forall n, In (EvHasValue n) (trace r) -> n = num) /\
    (forall n, In (EvRecordUniq n) (trace r) -> n = num).
Proof.
  intros r.
  assert (H : countEv isInc (trace r) = 1%nat) by reflexivity.
  split; [exact H|].
  exact (X6_counted_numbers_are_bounded (mkConn "9999999999" EOF) None
           oneToken H).
Defined.

(** ** The echo *)

Lemma fastDigits_string_of_uint d n :
  strconv.fastDigits (NilEmpty.string_of_uint d) n = Some (uintValue d n).
Proof.
  revert n. induction d; intros n; cbn [NilEmpty.string_of_uint uintValue];
    [reflexivity|..];
    cbn [strconv.fastDigits]; cbv zeta;
    match goal with
    | |- context [strconv.subByte ?a ?b] =>
        let v := eval vm_compute in (strconv.subByte a b) in
        change (strconv.subByte a b) with v
    end;
    cbv iota beta; change (9 <? _) with false; cbv iota;
    rewrite IHd; rewrite ?Z.add_0_r; reflexivity.
Qed.

Lemma allDigits_string_of_uint d :
  allDigits (NilEmpty.string_of_uint d) = true.
Proof.
  induction d; cbn [NilEmpty.string_of_uint allDigits]; [reflexivity|..];
    rewrite IHd; reflexivity.
Qed.

Lemma uintValue_of_lu d d' :
  Z.of_N (DecimalPos.Unsigned.of_lu (Decimal.revapp d d')) =
  uintValue d (Z.of_N (DecimalPos.Unsigned.of_lu d')).
Proof.
  revert d'. induction d; intros d'; cbn [Decimal.revapp uintValue];
    [reflexivity|..];
    rewrite IHd; f_equal;
    rewrite (DecimalPos.Unsigned.of_lu_eqn (_ d'));
    cbn [DecimalPos.Unsigned.hd DecimalPos.Unsigned.tl];
    rewrite N2Z.inj_add, N2Z.inj_mul; simpl Z.of_N; lia.
Qed.

(** The printed form of a numeral denotes the number the numeral stands
    for. *)
Lemma uintValue_of_uint d : uintValue d 0 = Z.of_N (Pos.of_uint d).
Proof.
  rewrite DecimalPos.Unsigned.of_uint_alt. unfold Decimal.rev.
  rewrite uintValue_of_lu. reflexivity.
Qed.

Lemma fmtInt_pos p :
  fmtInt (Z.pos p) = NilEmpty.string_of_uint (Pos.to_uint p).
Proof.
  unfold fmtInt. cbn [Z.to_int NilZero.string_of_int].
  unfold NilZero.string_of_uint.
  pose proof (DecimalPos.Unsigned.to_uint_nonnil p).
  destruct (Pos.to_uint p); [contradiction|reflexivity..].
Qed.

(** [%d] of a number that is not negative prints digits only, and they
    denote the number. *)
Lemma fmtInt_digits num :
  0 <= num ->
  allDigits (fmtInt num) = true /\ decimal (fmtInt num) = num.
Proof.
  intros H. destruct num as [|p|p]; [split; reflexivity| |lia].
  rewrite fmtInt_pos. split; [apply allDigits_string_of_uint|].
  pose proof (fastDigits_digits _ 0 (allDigits_string_of_uint (Pos.to_uint p)))
    as F.
  rewrite fastDigits_string_of_uint in F. inversion F as [E].
  unfold decimal. rewrite <- E, uintValue_of_uint.
  rewrite DecimalPos.Unsigned.of_to. reflexivity.
Qed.

(** X7. In a run that counts a request, what is echoed is the parsed
    number in digits only (no sign, whatever the request carried) followed
    by a newline, and the digits denote exactly the number [Atoi] read from
    the request. *)
Theorem X7_echo_denotes_the_parsed_number :
  forall conn appendErr c,
    let r := handleConnection conn appendErr c in
    countEv isInc (trace r) = 1%nat ->
    exists s num,
      ReadString nl conn = (s, Some EOF) /\
      strconv.Atoi s = inr num /\
      writes (trace r) = [fmtInt num +:+ nlStr] /\
      allDigits (fmtInt num) = true /\
      decimal (fmtInt num) = num.
Proof.
  intros conn appendErr c r. subst r.
  unfold handleConnection, handleConnectionWith.
  rewrite deferred_writes, deferred_countEv by reflexivity.
  destruct (body_cases conn appendErr c)
    as [(s & msg & _ & ->)
       |[(s & _ & _ & ->)
        |[(s & e & _ & _ & _ & ->)
         |[(s & num & _ & _ & _ & _ & ->)
          |[(s & num & Hd & Hl & Hp & Hm & c' & tail & -> & Ht)
           |(s & num & msg & Hd & Hl & Hp & Hm & _ & c' & ->)]]]]];
    cbn [trace]; try discriminate; intros _; exists s, num;
    (assert (H0 : 0 <= num) by (unfold minValue in Hm; lia));
    destruct (fmtInt_digits num H0) as [Ha Hv];
    (split; [apply (parsed_line_ended_by_EOF conn s num Hd Hl Hp)|]);
    (split; [exact Hp|]); (split; [|split; assumption]).
  - destruct Ht as [->| ->]; reflexivity.
  - reflexivity.
Qed.

Lemma X7_witness :
  let r := handleConnection (mkConn "+001234567" EOF) None oneToken in
  countEv isInc (trace r) = 1%nat /\
  exists s num,
    ReadString nl (mkConn "+001234567" EOF) = (s, Some EOF) /\
    strconv.Atoi s = inr num /\
    writes (trace r) = [fmtInt num +:+ nlStr] /\
    allDigits (fmtInt num) = true /\
    decimal (fmtInt num) = num.
Proof.
  intros r.
  assert (H : countEv isInc (trace r) = 1%nat) by reflexivity.
  split; [exact H|].
  exact (X7_echo_denotes_the_parsed_number (mkConn "+001234567" EOF) None
           oneToken H).
Defined.

Lemma isDigit_digitCons ch d :
  isDigit ch = true ->
  NilEmpty.string_of_uint (digitCons ch d) =
    String ch (NilEmpty.string_of_uint d).
Proof.
  intros H.
  destruct ch as [[|] [|] [|] [|] [|] [|] [|] [|]];
    vm_compute in H; try discriminate H; reflexivity.
Qed.

Lemma string_of_uintOfDigits s :
  allDigits s = true -> NilEmpty.string_of_uint (uintOfDigits s) = s.
Proof.
  induction s as [|ch rest IH]; intros H; [reflexivity|].
  cbn [allDigits] in H. apply andb_prop in H as [Hc Hr].
  cbn [uintOfDigits]. rewrite (isDigit_digitCons ch _ Hc), (IH Hr).
  reflexivity.
Qed.

Lemma digitCons_unorm ch d :
  isDigit ch = true -> ch <> "0"%char ->
  Decimal.unorm (digitCons ch d) = digitCons ch d /\
  digitCons ch d <> Decimal.Nil.
Proof.
  intros H Hz.
  destruct ch as [[|] [|] [|] [|] [|] [|] [|] [|]];
    vm_compute in H; try discriminate H;
    try (split; [reflexivity|discriminate]).
  exfalso. apply Hz. reflexivity.
Qed.

(** Digits that do not begin with a zero are printed back as they are. *)
Lemma fmtInt_decimal ch rest :
  allDigits (String ch rest) = true -> ch <> "0"%char ->
  fmtInt (decimal (String ch rest)) = String ch rest.
Proof.
  intros Ha Hz. set (s := String ch rest) in *.
  pose proof (string_of_uintOfDigits s Ha) as Hs.
  pose proof (fastDigits_digits s 0 Ha) as F.
  rewrite <- Hs in F at 1. rewrite fastDigits_string_of_uint in F.
  assert (E : decimal s = uintValue (uintOfDigits s) 0)
    by (unfold decimal; congruence).
  rewrite E, uintValue_of_uint.
  assert (Hc : isDigit ch = true).
  { cbn [allDigits] in Ha. apply andb_prop in Ha. tauto. }
  destruct (digitCons_unorm ch (uintOfDigits rest) Hc Hz) as [Hn Hnil].
  change (digitCons ch (uintOfDigits rest)) with (uintOfDigits s) in Hn, Hnil.
  unfold fmtInt.
  change (Z.of_N (Pos.of_uint (uintOfDigits s)))
    with (Z.of_int (Decimal.Pos (uintOfDigits s))).
  rewrite DecimalZ.to_of. cbn [Decimal.norm]. rewrite Hn.
  cbn [NilZero.string_of_int]. unfold NilZero.string_of_uint.
  rewrite <- Hs at 2.
  destruct (uintOfDigits s); [contradiction|reflexivity..].
Qed.

Lemma first_digit_positive ch :
  isDigit ch = true -> ch <> "0"%char -> 1 <= code ch - 48.
Proof.
  intros H Hz.
  destruct ch as [[|] [|] [|] [|] [|] [|] [|] [|]];
    vm_compute in H; try discriminate H;
    try (vm_compute; discriminate).
  exfalso. apply Hz. reflexivity.
Qed.

(** X8. Ten digits that do not begin with a zero, cut by the end of the
    stream, are always counted, and the client is sent back exactly the
    bytes it sent, followed by a newline. *)
Theorem X8_canonical_request_echoed_byte_for_byte :
  forall ch rest appendErr c,
    allDigits (String ch rest) = true -> len (String ch rest) = validLen ->
    ch <> "0"%char ->
    let r := handleConnection (mkConn (String ch rest) EOF) appendErr c in
    writes (trace r) = [String ch rest +:+ nlStr] /\
    countEv isInc (trace r) = 1%nat.
Proof.
  intros ch rest appendErr c Ha Hl Hz r. subst r.
  set (s := String ch rest) in *.
  pose proof (ReadString_digits s EOF Ha) as Hr.
  pose proof (Atoi_digits s Ha Hl) as Hp.
  assert (Hm : minValue <= decimal s).
  { pose proof Ha as Ha'. cbn [allDigits] in Ha'.
    apply andb_prop in Ha' as [Hc Hrest].
    pose proof (first_digit_positive ch Hc Hz) as H1.
    pose proof (fastDigits_digits rest (0 * 10 + (code ch - 48)) Hrest) as F.
    apply fastDigits_bounds in F; [|lia].
    unfold s in Hl. rewrite len_cons in Hl. unfold validLen in Hl.
    replace (len rest) with 9 in F by lia.
    change (10 ^ 9) with 1000000000 in F.
    unfold decimal, s. cbn [decimalFrom]. unfold minValue. lia. }
  destruct (accepted_run (mkConn s EOF) appendErr c s (decimal s)
              (or_intror Hr) Hl Hp Hm) as (Hw & Hi & _).
  split; [|exact Hi]. rewrite Hw. unfold echo, s.
  rewrite (fmtInt_decimal ch rest Ha Hz). reflexivity.
Qed.

Lemma X8_witness :
  allDigits "1000000000" = true /\ len "1000000000" = validLen /\
  let r := handleConnection (mkConn "1000000000" EOF) None oneToken in
  writes (trace r) = ["1000000000" +:+ nlStr] /\
  countEv isInc (trace r) = 1%nat.
Proof.
  assert (Ha : allDigits "1000000000" = true) by reflexivity.
  assert (Hl : len "1000000000" = validLen) by reflexivity.
  assert (Hz : "1"%char <> "0"%char) by discriminate.
  split; [exact Ha|]. split; [exact Hl|].
  exact (X8_canonical_request_echoed_byte_for_byte "1"%char "000000000"
           None oneToken Ha Hl Hz).
Defined.

(** * Further properties of the server *)

(** ** Conservation of tokens *)

Lemma countAll_app p h1 h2 :
  countAll p (h1 ++ h2)%list = (countAll p h1 + countAll p h2)%nat.
Proof.
  induction h1 as [|[i a] h1 IH]; [reflexivity|].
  simpl. rewrite IH. lia.
Qed.

Lemma countAll_handlerLog p id r :
  countAll p (handlerLog id r) =
    (countEv (fun e => p (Handler e)) (trace r)
     + (if p (Exited (exit r)) then 1 else 0))%nat.
Proof.
  unfold handlerLog. rewrite countAll_app. simpl. f_equal; [|lia].
  induction (trace r) as [|e tr IH]; [reflexivity|].
  simpl. rewrite IH. reflexivity.
Qed.

Lemma tokens_balance s :
  reachable s ->
  countAll isAcquired (history s) =
    (countAll isReleaseEv (history s) + outstanding s)%nat.
Proof.
  induction 1 as [|s cmd s' Hr IH H]; [reflexivity|].
  unfold exec in H. destruct (halted s); [discriminate|].
  unfold outstanding in *.
  destruct cmd as [| |id conn appendErr|].
  - destruct (handoff s); [discriminate|]. unfold trySend in H.
    destruct (length (buf (Sem (counter s))) <? cap (Sem (counter s)))%nat;
      inversion H; subst; clear H; cbn [history counter];
      rewrite !countAll_app; simpl; rewrite ?length_app; simpl; lia.
  - destruct (handoff s); [|discriminate].
    inversion H; subst; clear H; cbn [history counter].
    rewrite !countAll_app. simpl. lia.
  - destruct (existsb (Nat.eqb id) (active s)); [|discriminate].
    cbv zeta in H.
    destruct (handler_gate conn appendErr (counter s)) as (_ & Hg).
    destruct (exit (handleConnection conn appendErr (counter s))) eqn:E;
      inversion H; subst; clear H; cbn [history counter];
      rewrite !countAll_app, !countAll_handlerLog, E;
      change (fun e => isReleaseEv (Handler e)) with isRelease;
      rewrite (countEv_none (fun e => isAcquired (Handler e)))
        by reflexivity; simpl.
    + destruct Hg as ((v & Hv) & ->). rewrite Hv in IH. simpl in IH. lia.
    + destruct Hg as (-> & ->). lia.
  - inversion H; subst; clear H. exact IH.
Qed.

(** X9. In every reachable state the tokens in the semaphore are exactly
    the tokens acquired and not yet released, and there is exactly one per
    connection in flight (handed to [main] or being handled), each such
    connection being there once: no token leaks and no handler runs without
    one. *)
Theorem X9_tokens_are_conserved :
  forall s,
    reachable s ->
    outstanding s = length (holders s) /\
    NoDup (holders s) /\
    countAll isAcquired (history s) =
      (countAll isReleaseEv (history s) + outstanding s)%nat.
Proof.
  intros s Hr.
  destruct (reachable_gateInv s Hr) as (_ & Ho & _).
  destruct (reachable_histInv s Hr) as [Hn _ _ _ _].
  split; [exact Ho|]. split; [exact Hn|]. apply tokens_balance, Hr.
Qed.

Lemma X9_witness :
  let s := stateAfter
             (sevenAccepts ++
              [Handle 3%nat (mkConn "1234567890" EOF) None;
               Handle 1%nat (mkConn ("123" +:+ nlStr) EOF) None;
               Accept])%list in
  reachable s /\
  outstanding s = 5%nat /\ holders s = [7; 5; 4; 2; 0]%nat /\
  outstanding s = length (holders s) /\
  NoDup (holders s) /\
  countAll isAcquired (history s) =
    (countAll isReleaseEv (history s) + outstanding s)%nat.
Proof.
  intros s.
  assert (Hr : reachable s) by apply reachable_stateAfter.
  split; [exact Hr|]. split; [reflexivity|]. split; [reflexivity|].
  exact (X9_tokens_are_conserved s Hr).
Defined.

(** ** Handlers make progress *)

Lemma In_existsb_eqb id l : In id l -> existsb (Nat.eqb id) l = true.
Proof.
  intros H. apply existsb_exists. exists id. split; [exact H|].
  apply Nat.eqb_refl.
Qed.

(** X10. While the process runs, the handler of every connection being
    handled can finish, whatever its client sent: its deferred receive
    always finds a token, and unless the run ends the process it leaves one
    token fewer outstanding and one running handler fewer. *)
Theorem X10_running_handler_never_blocks :
  forall s id conn appendErr,
    reachable s -> halted s = false -> In id (active s) ->
    exit (handleConnection conn appendErr (counter s)) <> Blocked /\
    exists s',
      exec (Handle id conn appendErr) s = Some s' /\
      (halted s' = false ->
       S (outstanding s') = outstanding s /\
       S (length (active s')) = length (active s)).
Proof.
  intros s id conn appendErr Hr Hl Ha.
  pose proof (handler_never_blocks s id conn appendErr Hr Ha) as Hb.
  split; [exact Hb|].
  destruct (handler_gate conn appendErr (counter s)) as (_ & Hg).
  unfold exec. rewrite Hl, (In_existsb_eqb id _ Ha). cbv zeta.
  destruct (exit (handleConnection conn appendErr (counter s)));
    [| |contradiction].
  - eexists. split; [reflexivity|]. intros _.
    unfold outstanding. cbn [counter active].
    destruct Hg as ((v & ->) & _). split; [reflexivity|].
    apply removeId_length, Ha.
  - eexists. split; [reflexivity|]. cbn [halted]. discriminate.
Qed.

Lemma X10_witness :
  let s := stateAfter sixRunning in
  reachable s /\ halted s = false /\ In 4%nat (active s) /\
  exit (handleConnection (mkConn EmptyString EOF) None (counter s))
    <> Blocked /\
  exists s',
    exec (Handle 4%nat (mkConn EmptyString EOF) None) s = Some s' /\
    (halted s' = false ->
     S (outstanding s') = outstanding s /\
     S (length (active s')) = length (active s)).
Proof.
  intros s.
  assert (Hr : reachable s) by apply reachable_stateAfter.
  assert (Hl : halted s = false) by reflexivity.
  assert (Ha : In 4%nat (active s)) by (vm_compute; tauto).
  split; [exact Hr|]. split; [exact Hl|]. split; [exact Ha|].
  exact (X10_running_handler_never_blocks s 4%nat
           (mkConn EmptyString EOF) None Hr Hl Ha).
Defined.

(** ** A full gate, and a slot freed *)

(** X11. While the semaphore is full, every connection that arrives is
    rejected: any number of them in a row each get the busy message and
    nothing else, and the counter, the gate and the running handlers are
    left exactly as they were. *)
Theorem X11_full_gate_rejects_every_arrival :
  forall n s,
    halted s = false -> handoff s = None ->
    outstanding s = cap (Sem (counter s)) ->
    execAll (repeat Accept n) s =
      Some (mkServer (counter s) None (active s) (n + next s)%nat false
              (history s ++ rejections (next s) n)).
Proof.
  induction n as [|n IH]; intros s Hl Ho Hf.
  - simpl. rewrite app_nil_r. destruct s; simpl in *; subst. reflexivity.
  - cbn [repeat execAll]. unfold exec at 1. rewrite Hl, Ho.
    unfold trySend. unfold outstanding in Hf. rewrite Hf, Nat.ltb_irrefl.
    rewrite IH; cbn [halted handoff counter active next history];
      try reflexivity; try assumption.
    cbn [rejections]. rewrite <- app_assoc. cbn [app].
    rewrite Nat.add_succ_r. reflexivity.
Qed.

Lemma X11_witness :
  let s := stateAfter sixRunning in
  halted s = false /\ handoff s = None /\
  outstanding s = cap (Sem (counter s)) /\
  execAll (repeat Accept 3) s =
    Some (mkServer (counter s) None (active s) 9%nat false
            (history s ++
             [(6%nat, Rejected "Server busy.");
              (7%nat, Rejected "Server busy.");
              (8%nat, Rejected "Server busy.")])).
Proof.
  intros s.
  assert (Hl : halted s = false) by reflexivity.
  assert (Ho : handoff s = None) by reflexivity.
  assert (Hf : outstanding s = cap (Sem (counter s))) by reflexivity.
  split; [exact Hl|]. split; [exact Ho|]. split; [exact Hf|].
  exact (X11_full_gate_rejects_every_arrival 3 s Hl Ho Hf).
Defined.

(** X12. A handler that returns frees a slot at once: the connection that
    arrives right after it is let in, whatever the load was before. *)
Theorem X12_returned_handler_frees_a_slot :
  forall s id conn appendErr,
    reachable s -> halted s = false -> handoff s = None ->
    In id (active s) ->
    exit (handleConnection conn appendErr (counter s)) = Returned ->
    exists s',
      execAll [Handle id conn appendErr; Accept] s = Some s' /\
      handoff s' = Some (next s) /\
      acquired (next s) s' = 1%nat /\ rejected (next s) s' = 0%nat /\
      outstanding s' = outstanding s.
Proof.
  intros s id conn appendErr Hr Hl Ho Ha Hx.
  destruct (reachable_gateInv s Hr) as (Hc & _ & Hle).
  destruct (reachable_histInv s Hr) as [_ _ Hf _ _].
  destruct (handler_gate conn appendErr (counter s)) as (Hcap & Hg).
  rewrite Hx in Hg. destruct Hg as ((v & Hv) & _).
  assert (Hz : forall p, count p (next s) (history s) = 0%nat).
  { intros p. pose proof (count_le_any p (next s) (history s)).
    rewrite (Hf (next s)) in H by lia. lia. }
  cbn [execAll]. unfold exec at 1.
  rewrite Hl, (In_existsb_eqb id _ Ha). cbv zeta. rewrite Hx.
  unfold exec. cbn [halted handoff counter next active history].
  rewrite Ho. unfold trySend. unfold outstanding in *.
  rewrite Hv in Hle. simpl in Hle.
  assert (E : (length (buf (Sem (final (handleConnection conn appendErr
                                          (counter s)))))
               <? cap (Sem (final (handleConnection conn appendErr
                                     (counter s)))))%nat = true).
  { apply Nat.ltb_lt. rewrite Hcap, Hc. lia. }
  rewrite E. eexists. split; [reflexivity|].
  cbn [handoff]. split; [reflexivity|].
  unfold acquired, rejected. cbn [history counter].
  rewrite !count_app, !count_handlerLog, !Hz. simpl.
  rewrite Nat.eqb_refl, length_app, Hv. simpl.
  destruct (reachable_histInv s Hr) as [_ Hh _ _ _].
  assert (Hlt : (id < next s)%nat).
  { apply (Hh id). unfold holders. rewrite Ho. simpl.
    apply list_elem_of_In, Ha. }
  assert (En : (id =? next s)%nat = false) by (apply Nat.eqb_neq; lia).
  rewrite En. repeat split; lia.
Qed.

Lemma X12_witness :
  let s := stateAfter sixRunning in
  let conn := mkConn ("123" +:+ nlStr) EOF in
  reachable s /\ halted s = false /\ handoff s = None /\
  In 2%nat (active s) /\
  exit (handleConnection conn None (counter s)) = Returned /\
  exists s',
    execAll [Handle 2%nat conn None; Accept] s = Some s' /\
    handoff s' = Some (next s) /\
    acquired (next s) s' = 1%nat /\ rejected (next s) s' = 0%nat /\
    outstanding s' = outstanding s.
Proof.
  intros s conn.
  assert (Hr : reachable s) by apply reachable_stateAfter.
  assert (Hl : halted s = false) by reflexivity.
  assert (Ho : handoff s = None) by reflexivity.
  assert (Ha : In 2%nat (active s)) by (vm_compute; tauto).
  assert (Hx : exit (handleConnection conn None (counter s)) = Returned)
    by reflexivity.
  repeat (split; [assumption|]).
  exact (X12_returned_handler_frees_a_slot s 2%nat conn None
           Hr Hl Ho Ha Hx).
Defined.

(** ** One handler per connection *)

Ltac once_counts :=
  rewrite ?count_snoc; cbn [isDispatched isExit isAcquired];
  rewrite ?andb_false_r, ?andb_true_r, ?Nat.add_0_r.

Lemma handlerLog_once id id0 r :
  count isExit id (handlerLog id0 r) = (if (id0 =? id)%nat then 1 else 0)%nat /\
  count isDispatched id (handlerLog id0 r) = 0%nat /\
  count isAcquired id (handlerLog id0 r) = 0%nat.
Proof.
  rewrite !count_handlerLog.
  rewrite !(countEv_none (fun e => _ (Handler e))) by reflexivity.
  destruct (id0 =? id)%nat; repeat split; reflexivity.
Qed.

Lemma onceInv_exec s cmd s' :
  histInv s -> onceInv s -> exec cmd s = Some s' -> onceInv s'.
Proof.
  intros [Hn Hh Hf _ _] (Hho & Hac & Hor) H. unfold exec in H.
  destruct (halted s) eqn:Hl; [discriminate|]. specialize (Hac eq_refl).
  assert (Hz : forall p, count p (next s) (history s) = 0%nat).
  { intros p. pose proof (count_le_any p (next s) (history s)).
    rewrite (Hf (next s)) in H0 by lia. lia. }
  unfold holders in *.
  destruct cmd as [| |id0 conn appendErr|].
  - destruct (handoff s) as [h|] eqn:Ho; [discriminate|].
    destruct (trySend 1 (Sem (counter s))) as [ch|];
      inversion H; subst; clear H; unfold onceInv;
      cbn [handoff halted active];
      unfold dispatched, exits, acquired in *; cbn [history].
    + split; [|split].
      * intros id E. inversion E; subst. once_counts. apply Hz.
      * intros _ id Hin. once_counts. apply Hac, Hin.
      * intros id. destruct (Hor id) as (H1 & H2 & H3). once_counts.
        repeat split; lia.
    + split; [|split].
      * intros id E. discriminate E.
      * intros _ id Hin. once_counts. apply Hac, Hin.
      * intros id. once_counts. apply Hor.
  - destruct (handoff s) as [h|] eqn:Ho; [|discriminate].
    inversion H; subst; clear H; unfold onceInv;
      cbn [handoff halted active];
      unfold dispatched, exits, acquired in *; cbn [history].
    simpl in Hn. apply NoDup_cons in Hn as [Hnotin Hn].
    pose proof (Hho h eq_refl) as Hd0.
    split; [|split].
    + intros id E. discriminate E.
    + intros _ id Hin. once_counts.
      apply elem_of_cons in Hin as [->|Hin].
      * rewrite Nat.eqb_refl. destruct (Hor h) as (_ & H2 & _).
        split; lia.
      * assert (E : (h =? id)%nat = false)
          by (apply Nat.eqb_neq; intros ->; contradiction).
        rewrite E. destruct (Hac id Hin). split; lia.
    + intros id. once_counts. destruct (Hor id) as (H1 & H2 & H3).
      destruct (h =? id)%nat eqn:E; [|repeat split; lia].
      apply Nat.eqb_eq in E. subst id.
      destruct (Hh h) as (_ & Ha1 & _).
      { simpl. apply elem_of_cons. left. reflexivity. }
      unfold acquired in Ha1. repeat split; lia.
  - destruct (existsb (Nat.eqb id0) (active s)) eqn:Ea; [|discriminate].
    apply existsb_eqb_In, list_elem_of_In in Ea. cbv zeta in H.
    destruct (Hac id0 Ea) as (Hd0 & He0).
    unfold dispatched, exits, acquired in *.
    assert (Hne : forall id, id ∈ removeId id0 (active s) ->
                    id ∈ active s /\ id <> id0).
    { intros id Hx. apply NoDup_app in Hn as (_ & _ & N3).
      split; [apply (removeId_subset id0), Hx|].
      intros ->. apply (removeId_NoDup id0 _ N3), Hx. }
    pose proof (fun id =>
                  handlerLog_once id id0
                    (handleConnection conn appendErr (counter s))) as HL.
    assert (Hord : forall id,
              (count isDispatched id
                 (history s ++
                  handlerLog id0 (handleConnection conn appendErr (counter s)))
               <= count isAcquired id
                    (history s ++
                     handlerLog id0
                       (handleConnection conn appendErr (counter s))))%nat /\
              (count isExit id
                 (history s ++
                  handlerLog id0 (handleConnection conn appendErr (counter s)))
               <= count isDispatched id
                    (history s ++
                     handlerLog id0
                       (handleConnection conn appendErr (counter s))))%nat /\
              (count isExit id
                 (history s ++
                  handlerLog id0 (handleConnection conn appendErr (counter s)))
               <= 1)%nat).
    { intros id. rewrite !count_app.
      destruct (HL id) as (-> & -> & ->).
      destruct (Hor id) as (H1 & H2 & H3).
      destruct (id0 =? id)%nat eqn:E; [|repeat split; lia].
      apply Nat.eqb_eq in E. subst id. repeat split; lia. }
    assert (Hdis : forall id,
              count isDispatched id
                (history s ++
                 handlerLog id0 (handleConnection conn appendErr (counter s)))
              = count isDispatched id (history s)).
    { intros id. rewrite count_app. destruct (HL id) as (_ & -> & _). lia. }
    assert (Hex : forall id, id <> id0 ->
              count isExit id
                (history s ++
                 handlerLog id0 (handleConnection conn appendErr (counter s)))
              = count isExit id (history s)).
    { intros id Hneq. rewrite count_app. destruct (HL id) as (-> & _ & _).
      assert (E : (id0 =? id)%nat = false)
        by (apply Nat.eqb_neq; congruence).
      rewrite E. lia. }
    destruct (exit (handleConnection conn appendErr (counter s))) eqn:Ex;
      inversion H; subst; clear H; unfold onceInv;
      cbn [handoff halted active];
      unfold dispatched, exits, acquired in *; cbn [history];
      (split; [|split]); try exact Hord; try discriminate.
    + intros id E. rewrite Hdis. apply Hho, E.
    + intros _ id Hin. destruct (Hne id Hin) as (Hin' & Hneq).
      rewrite Hdis, (Hex id Hneq). apply Hac, Hin'.
    + intros id E. rewrite Hdis. apply Hho, E.
  - inversion H; subst; clear H. unfold onceInv.
    cbn [handoff halted active]. unfold dispatched, exits, acquired in *.
    cbn [history]. split; [exact Hho|]. split; [discriminate|exact Hor].
Qed.

Lemma reachable_onceInv s : reachable s -> onceInv s.
Proof.
  induction 1 as [|s cmd s' Hr IH H].
  - unfold onceInv, dispatched, exits, acquired. simpl.
    split; [discriminate|]. split.
    + intros _ id Hin. apply elem_of_nil in Hin. destruct Hin.
    + intros id. repeat split; lia.
  - apply (onceInv_exec s cmd s' (reachable_histInv s Hr) IH H).
Qed.

(** X13. In every reachable state a connection is dispatched to a handler
    at most once and only after it acquired a token, and a handler ends at
    most once and only for a connection that was dispatched: no connection
    is ever handled twice, and none is handled without passing the gate. *)
Theorem X13_one_dispatch_and_one_handler_per_connection :
  forall s,
    reachable s ->
    forall id,
      (dispatched id s <= acquired id s)%nat /\
      (acquired id s <= 1)%nat /\
      (exits id s <= dispatched id s)%nat /\
      (exits id s <= 1)%nat.
Proof.
  intros s Hr id.
  destruct (reachable_onceInv s Hr) as (_ & _ & Hor).
  destruct (reachable_histInv s Hr) as [_ _ _ Hp _].
  destruct (Hor id) as (H1 & H2 & H3).
  destruct (Hp id) as (_ & H4 & _).
  repeat split; lia.
Qed.

Lemma X13_witness :
  let s := stateAfter
             (sevenAccepts ++
              [Handle 3%nat (mkConn "1234567890" EOF) None;
               Accept])%list in
  reachable s /\
  (dispatched 3%nat s = 1 /\ exits 3%nat s = 1 /\
   dispatched 7%nat s = 0 /\ acquired 7%nat s = 1 /\
   dispatched 6%nat s = 0 /\ acquired 6%nat s = 0)%nat /\
  forall id,
    (dispatched id s <= acquired id s)%nat /\
    (acquired id s <= 1)%nat /\
    (exits id s <= dispatched id s)%nat /\
    (exits id s <= 1)%nat.
Proof.
  intros s.
  assert (Hr : reachable s) by apply reachable_stateAfter.
  split; [exact Hr|]. split; [repeat split; reflexivity|].
  exact (X13_one_dispatch_and_one_handler_per_connection s Hr).
Defined.

(** ** No connection is turned away without cause *)

(** X15. In a reachable state a connection that arrives is rejected
    exactly when six connections are in flight (handed to [main] or being
    handled), and is let in exactly when fewer are; either way it gets one
    of the two outcomes. *)
Theorem X15_rejected_only_when_six_in_flight :
  forall s s',
    reachable s -> exec Accept s = Some s' ->
    (rejected (next s) s' = 1%nat /\ acquired (next s) s' = 0%nat /\
     length (holders s) = connLimit /\ holders s' = holders s) \/
    (rejected (next s) s' = 0%nat /\ acquired (next s) s' = 1%nat /\
     (length (holders s) < connLimit)%nat /\
     holders s' = next s :: holders s).
Proof.
  intros s s' Hr H.
  destruct (reachable_gateInv s Hr) as (Hc & Ho & Hle).
  destruct (reachable_histInv s Hr) as [_ _ Hf _ _].
  assert (Hz : forall p, count p (next s) (history s) = 0%nat).
  { intros p. pose proof (count_le_any p (next s) (history s)).
    rewrite (Hf (next s)) in H0 by lia. lia. }
  unfold exec in H. destruct (halted s); [discriminate|].
  destruct (handoff s) as [h|] eqn:Hh; [discriminate|].
  unfold trySend in H. unfold outstanding in *. rewrite Hc in H.
  destruct (length (buf (Sem (counter s))) <? connLimit)%nat eqn:E;
    inversion H; subst; clear H; unfold rejected, acquired, holders;
    cbn [history handoff active]; rewrite !count_snoc, !Hz, Nat.eqb_refl, Hh;
    simpl.
  - right. apply Nat.ltb_lt in E. unfold holders in Ho. rewrite Hh in Ho.
    simpl in Ho. repeat split; try reflexivity. lia.
  - left. apply Nat.ltb_ge in E. unfold holders in Ho. rewrite Hh in Ho.
    simpl in Ho. repeat split; try reflexivity. lia.
Qed.

Lemma X15_witness :
  let s := stateAfter sixRunning in
  let s' := stateAfter sevenAccepts in
  reachable s /\ exec Accept s = Some s' /\
  rejected (next s) s' = 1%nat /\ acquired (next s) s' = 0%nat /\
  length (holders s) = connLimit /\ holders s' = holders s.
Proof.
  intros s s'.
  assert (Hr : reachable s) by apply reachable_stateAfter.
  assert (He : exec Accept s = Some s') by (vm_compute; reflexivity).
  split; [exact Hr|]. split; [exact He|].
  destruct (X15_rejected_only_when_six_in_flight s s' Hr He)
    as [H|(H & _)]; [exact H|].
  vm_compute in H. discriminate H.
Defined.

(** ** Answer first, record after *)

Ltac find_record H :=
  simpl in H;
  repeat match goal with
         | K : _ \/ _ |- _ => destruct K
         | K : False |- _ => destruct K
         | K : EvRecordUniq _ = EvRecordUniq _ |- _ =>
             inversion K; clear K; subst
         | K : _ = EvRecordUniq _ |- _ => discriminate K
         end.

(** X14. Whenever a run hands a number to [RecordUniq], it has by then
    counted the number and written its echo to the client, in that order;
    so a client may hold the echo of a number whose recording then fails
    and ends the process. *)
Theorem X14_echo_precedes_recording :
  forall conn appendErr c n,
    let r := handleConnection conn appendErr c in
    In (EvRecordUniq n) (trace r) ->
    exists rest,
      trace r =
        ([EvInc; EvWrite (echo n); EvHasValue n; EvRecordUniq n] ++ rest)%list
      /\ (rest = [EvClose; EvRelease] \/ rest = [EvClose] \/
          exists msg, appendErr = Some msg /\
                      rest = [EvFatal (fatalRecord msg)]).
Proof.
  intros conn appendErr c n r. subst r.
  unfold handleConnection, handleConnectionWith, deferred, recv.
  destruct (body_cases conn appendErr c)
    as [(s & msg & _ & ->)
       |[(s & _ & _ & ->)
        |[(s & e & _ & _ & _ & ->)
         |[(s & num & _ & _ & _ & _ & ->)
          |[(s & num & _ & _ & _ & _ & c' & tail & -> & Ht)
           |(s & num & msg & _ & _ & _ & _ & Ha & c' & ->)]]]]];
    cbn [exit trace final].
  - intros H. find_record H.
  - destruct (buf (Sem c)); cbn [trace]; intros H; find_record H.
  - destruct (buf (Sem c)); cbn [trace]; intros H; find_record H.
  - destruct (buf (Sem c)); cbn [trace]; intros H; find_record H.
  - destruct Ht as [->| ->]; destruct (buf (Sem c')); cbn [trace];
      intros H; find_record H;
      eexists; (split; [reflexivity|]); tauto.
  - intros H. find_record H. eexists. split; [reflexivity|].
    right. right. exists msg. split; reflexivity.
Qed.

Lemma X14_witness :
  let r := handleConnection (mkConn "1234567890" EOF) (Some "disk full")
             oneToken in
  In (EvRecordUniq 1234567890) (trace r) /\
  exists rest,
    trace r =
      ([EvInc; EvWrite (echo 1234567890); EvHasValue 1234567890;
        EvRecordUniq 1234567890] ++ rest)%list
    /\ (rest = [EvClose; EvRelease] \/ rest = [EvClose] \/
        exists msg, Some "disk full" = Some msg /\
                    rest = [EvFatal (fatalRecord msg)]).
Proof.
  intros r.
  assert (H : In (EvRecordUniq 1234567890) (trace r))
    by (vm_compute; tauto).
  split; [exact H|].
  exact (X14_echo_precedes_recording (mkConn "1234567890" EOF)
           (Some "disk full") oneToken 1234567890 H).
Defined.

#[local] Set Warnings "-clear-no-such-hyp".

(** * Two handlers at once *)

(** ** A task run alone is the handler *)

Ltac task_end c :=
  unfold deferred, taskRun;
  cbn [runTask stepTask pc events app fst snd exit final trace];
  unfold recv; destruct (buf (Sem c));
  cbn [runTask stepTask pc events app fst snd exit final trace];
  reflexivity.

Lemma runTask_handleConnection conn appendErr c :
  taskRun (runTask 7 conn appendErr startTask c) =
  handleConnection conn appendErr c.
Proof.
  unfold handleConnection, handleConnectionWith, handleBody, handleLine.
  cbn [runTask]. unfold stepTask at 1. cbn [pc startTask events app].
  destruct (ReadString nl conn) as [s [[|msg]|]]; try reflexivity;
    (destruct (negb (len s =? validLen)); [task_end c|]);
    (destruct (strconv.Atoi s) as [e|num]; [task_end c|]);
    (destruct (num <? minValue); [task_end c|]);
    cbn [stepTask pc events app]; cbv zeta;
    (destruct (HasValue num (Inc c)); [task_end (Inc c)|]);
    cbn [stepTask pc events app];
    destruct (RecordUniq num appendErr (Inc c)) as [c2 [msg'|]] eqn:R;
    try reflexivity;
    assert (Hs : Sem c2 = Sem (Inc c))
      by (unfold RecordUniq in R;
          destruct (bool_decide (num ∈ dedup (Inc c)));
          destruct appendErr; inversion R; reflexivity);
    unfold deferred, taskRun;
    cbn [runTask stepTask pc events app fst snd exit final trace];
    unfold recv; rewrite Hs; destruct (buf (Sem (Inc c)));
    cbn [runTask stepTask pc events app fst snd exit final trace];
    reflexivity.
Qed.

Ltac task_goals :=
  unfold taskInv, incd, recd in *;
  cbn [pc events stage dedup uniqLog totalValid intervalValid Inc withSem]
    in *;
  rewrite ?writes_app, ?countEv_app;
  cbn [writes countEv isInc isRecordUniq];
  repeat match goal with
         | K : writes _ = _ |- _ => rewrite K; clear K
         | K : countEv isInc _ = _ |- _ => rewrite K; clear K
         end;
  cbn [Nat.leb app Nat.add Z.of_nat];
  repeat match goal with |- _ /\ _ => split end.

Ltac task_easy :=
  try first
    [ assumption | reflexivity | discriminate | lia
    | (intros; discriminate) | (intros; lia)
    | (intros; exfalso; lia)
    | (left; repeat split; first [reflexivity|discriminate|lia]) ].

Ltac task_more B :=
  first
    [ (intros _; right; exact B)
    | (intros _; exact B)
    | (intros _ Hin; contradiction)
    | (intros _; right; set_solver)
    | (right; split; [reflexivity|]; split; [lia|];
       split; [set_solver|];
       first [left; reflexivity | right; split; reflexivity]) ].

(** ** One step of a task that carries a valid number *)

Section ValidTask.

Variables (conn : Conn) (appendErr : option string) (s : string) (num : Z).
Hypothesis Hd : delivered conn s.
Hypothesis Hl : len s = validLen.
Hypothesis Hp : strconv.Atoi s = inr num.
Hypothesis Hm : minValue <= num.

Lemma stepTask_start t c :
  pc t = PcStart ->
  stepTask conn appendErr t c = Some (mkTask (PcInc num) (events t), c).
Proof.
  intros E. unfold stepTask. rewrite E.
  apply Z.eqb_eq in Hl. apply Z.ltb_ge in Hm.
  destruct Hd as [R|R]; rewrite R; cbv beta iota; rewrite Hl, Hp;
    cbv beta iota; rewrite Hm; reflexivity.
Qed.

(** What one step does to the task and to the counter. *)
Lemma stepTask_valid t c t' c' :
  taskInv num t -> stepTask conn appendErr t c = Some (t', c') ->
  taskInv num t' /\
  totalValid c' + Z.of_nat (incd t) = totalValid c + Z.of_nat (incd t') /\
  intervalValid c' + Z.of_nat (incd t) =
    intervalValid c + Z.of_nat (incd t') /\
  ((recd t' = recd t /\ dedup c' = dedup c /\ uniqLog c' = uniqLog c /\
    isEndFatal (pc t') = false /\ pc t <> PcRecord num)
   \/
   (pc t = PcRecord num /\ recd t' = S (recd t) /\
    dedup c' = {[ num ]} ∪ dedup c /\
    (isEndFatal (pc t') = true \/
     (pc t' = PcClose /\
      uniqLog c' = (if bool_decide (num ∈ dedup c) then uniqLog c
                    else uniqLog c ++ [num])%list)))) /\
  (pc t' = PcRecord num -> num ∉ dedup c) /\
  (settled (pc t) = true -> settled (pc t') = true) /\
  (settled (pc t') = true -> settled (pc t) = true \/ num ∈ dedup c') /\
  ((stage (pc t) < 3)%nat -> (stage (pc t') <= 3)%nat) /\
  (pc t = PcCheck num -> num ∈ dedup c -> pc t' = PcClose).
Proof.
  intros (Hn & Hw & Hi & Hr1 & Hr0) H.
  unfold incd, recd in *.
  destruct t as [k ev]. cbn [pc events] in *.
  destruct k as [|n|n|n|n| | |x]; try subst n.
  - rewrite (stepTask_start (mkTask PcStart ev) c eq_refl) in H.
    inversion H; subst. task_goals.
    all: task_easy.
  - cbn [stepTask pc] in H. inversion H; subst. task_goals.
    all: task_easy.
  - cbn [stepTask pc] in H. inversion H; subst. task_goals.
    all: task_easy.
  - cbn [stepTask pc] in H. inversion H; subst.
    unfold HasValue. destruct (bool_decide (num ∈ dedup c')) eqn:B;
      [apply bool_decide_eq_true in B|apply bool_decide_eq_false in B];
      task_goals.
    all: task_easy.
    all: task_more B.
  - cbn [stepTask pc] in H. unfold RecordUniq in H.
    destruct (bool_decide (num ∈ dedup c)) eqn:B;
      [apply bool_decide_eq_true in B|apply bool_decide_eq_false in B];
      [|destruct appendErr as [msg|]];
      inversion H; subst; task_goals.
    all: task_easy.
    all: task_more B.
  - cbn [stepTask pc] in H. inversion H; subst. task_goals.
    all: task_easy.
  - cbn [stepTask pc] in H. unfold recv in H.
    destruct (buf (Sem c)) as [|v rest]; [discriminate|].
    inversion H; subst. task_goals.
    all: task_easy.
  - discriminate H.
Qed.

End ValidTask.

(** ** Two tasks that carry the same number *)

Lemma sideInv_sym c0 num c t o : sideInv c0 num c t o -> sideInv c0 num c o t.
Proof.
  unfold sideInv. intros (H1 & H2 & H3 & H4 & H5 & H6 & H7 & H8).
  rewrite (Nat.add_comm (incd o)), (Nat.add_comm (recd o)), orb_comm.
  split; [exact H2|]. split; [exact H1|]. split; [exact H3|].
  split; [exact H4|]. split; [exact H5|]. split; [exact H6|]. split.
  - intros [K|[K|K]]; apply H7; tauto.
  - intros [K|K]; apply H8; tauto.
Qed.

Lemma sideInv_start c0 num : sideInv c0 num c0 startTask startTask.
Proof.
  unfold sideInv, taskInv, incd, recd. cbn.
  split; [repeat split; lia|]. split; [repeat split; lia|].
  split; [lia|]. split; [lia|]. split; [reflexivity|].
  split; [intros _; reflexivity|]. split.
  - intros [K|[K|K]]; [lia|discriminate|discriminate].
  - intros [K|K]; discriminate.
Qed.

Lemma sideInv_step conn appendErr s c0 num c t o t' c' :
  delivered conn s -> len s = validLen -> strconv.Atoi s = inr num ->
  minValue <= num ->
  sideInv c0 num c t o ->
  isEndFatal (pc t) || isEndFatal (pc o) = false ->
  stepTask conn appendErr t c = Some (t', c') ->
  sideInv c0 num c' t' o.
Proof.
  intros Hd Hl Hp Hm (I1 & I2 & I3 & I4 & I5 & I6 & I7 & I8) Hf Hstep.
  destruct (stepTask_valid conn appendErr s num Hd Hl Hp Hm t c t' c' I1 Hstep)
    as (S1 & S2 & S3 & S4 & S5 & S6 & S7 & _ & _).
  specialize (I6 Hf).
  assert (Hsub : dedup c0 ⊆ dedup c).
  { rewrite I5. destruct (recd t + recd o =? 0)%nat; set_solver. }
  unfold sideInv.
  split; [exact S1|]. split; [exact I2|].
  split; [rewrite !Nat2Z.inj_add in *; lia|].
  split; [rewrite !Nat2Z.inj_add in *; lia|].
  destruct S4 as [(R & D & U & F & NR)|(PR & R & D & FU)].
  - rewrite R, D, U. split; [exact I5|]. split; [intros _; exact I6|].
    split.
    + intros [K|[K|K]].
      * apply I7. left. exact K.
      * intros Hin. apply (S5 K). apply Hsub, Hin.
      * apply I7. right. right. exact K.
    + intros [K|K].
      * destruct (S7 K) as [K'|K']; [apply I8; left; exact K'|].
        rewrite D in K'. exact K'.
      * apply I8. right. exact K.
  - assert (Hnew : num ∉ dedup c0) by (apply I7; right; left; exact PR).
    rewrite R. cbn [Nat.add Nat.eqb]. split; [|split; [|split]].
    + rewrite D, I5. destruct (recd t + recd o =? 0)%nat; set_solver.
    + intros F'. apply orb_false_iff in F' as [F1 _].
      destruct FU as [FU|(_ & ->)]; [congruence|].
      destruct (recd t + recd o =? 0)%nat eqn:E.
      * rewrite bool_decide_eq_false_2 by (rewrite I5; exact Hnew).
        rewrite I6. reflexivity.
      * rewrite bool_decide_eq_true_2 by (rewrite I5; set_solver).
        exact I6.
    + intros _. exact Hnew.
    + intros _. rewrite D. set_solver.
Qed.

(** ** Every interleaving of two handlers on the same number *)

Section SameNumber.

Variables (conn1 conn2 : Conn) (err1 err2 : option string).
Variables (s1 s2 : string) (num : Z) (c0 : Counter).
Hypothesis Hd1 : delivered conn1 s1.
Hypothesis Hl1 : len s1 = validLen.
Hypothesis Hp1 : strconv.Atoi s1 = inr num.
Hypothesis Hd2 : delivered conn2 s2.
Hypothesis Hl2 : len s2 = validLen.
Hypothesis Hp2 : strconv.Atoi s2 = inr num.
Hypothesis Hm : minValue <= num.

Lemma stepPair_inv who p p' :
  pairOK c0 num p -> stepPair conn1 err1 conn2 err2 who p = Some p' -> pairOK c0 num p'.
Proof.
  unfold pairOK, stepPair, halted2. intros Hi H.
  destruct (isEndFatal (pc (first p)) || isEndFatal (pc (second p))) eqn:F;
    [discriminate|].
  destruct who.
  - destruct (stepTask conn1 err1 (first p) (shared p)) as [[t c]|] eqn:E;
      inversion H; subst; clear H. cbn [shared first second].
    apply (sideInv_step conn1 err1 s1 c0 num (shared p) (first p) (second p)
             t c Hd1 Hl1 Hp1 Hm Hi F E).
  - destruct (stepTask conn2 err2 (second p) (shared p)) as [[t c]|] eqn:E;
      inversion H; subst; clear H. cbn [shared first second].
    apply sideInv_sym. rewrite orb_comm in F.
    apply (sideInv_step conn2 err2 s2 c0 num (shared p) (second p) (first p)
             t c Hd2 Hl2 Hp2 Hm (sideInv_sym _ _ _ _ _ Hi) F E).
Qed.

Lemma runPair_inv sched p p' :
  pairOK c0 num p -> runPair conn1 err1 conn2 err2 sched p = Some p' -> pairOK c0 num p'.
Proof.
  revert p. induction sched as [|who rest IH]; intros p Hi H; simpl in H.
  - inversion H; subst. exact Hi.
  - destruct (stepPair conn1 err1 conn2 err2 who p) as [q|] eqn:E;
      [|discriminate].
    apply (IH q); [|exact H]. apply (stepPair_inv who p q Hi E).
Qed.

(** When both handlers have returned. *)
Lemma both_returned p :
  pairOK c0 num p -> pc (first p) = PcEnd Returned -> pc (second p) = PcEnd Returned ->
  writes (events (first p)) = [echo num] /\
  writes (events (second p)) = [echo num] /\
  (incd (first p) = 1 /\ incd (second p) = 1)%nat /\
  totalValid (shared p) = totalValid c0 + 2 /\
  intervalValid (shared p) = intervalValid c0 + 2 /\
  dedup (shared p) = {[ num ]} ∪ dedup c0 /\
  (num ∉ dedup c0 ->
   size (dedup (shared p)) = S (size (dedup c0)) /\
   uniqLog (shared p) = (uniqLog c0 ++ [num])%list /\
   (1 <= recd (first p) + recd (second p) <= 2)%nat) /\
  (num ∈ dedup c0 ->
   dedup (shared p) = dedup c0 /\ uniqLog (shared p) = uniqLog c0 /\
   (recd (first p) + recd (second p) = 0)%nat).
Proof.
  unfold pairOK, sideInv, taskInv.
  intros ((_ & W1 & N1 & R1 & _) & (_ & W2 & N2 & R2 & _) &
          I3 & I4 & I5 & I6 & I7 & I8) E1 E2.
  rewrite E1, E2 in *. cbn [stage Nat.leb isEndFatal orb settled] in *.
  specialize (I6 eq_refl). specialize (I8 (or_introl eq_refl)).
  rewrite N1, N2 in I3, I4. cbn in I3, I4.
  split; [exact W1|]. split; [exact W2|]. split; [split; assumption|].
  split; [lia|]. split; [lia|].
  destruct (recd (first p) + recd (second p) =? 0)%nat eqn:Z.
  - apply Nat.eqb_eq in Z. rewrite I5 in I8.
    split; [rewrite I5; set_solver|]. split.
    + intros Hn. contradiction.
    + intros _. repeat split; assumption.
  - apply Nat.eqb_neq in Z.
    assert (Hn : num ∉ dedup c0) by (apply I7; left; lia).
    split; [exact I5|]. split.
    + intros _. rewrite I5. split; [|split; [exact I6|lia]].
      rewrite size_union by set_solver. rewrite size_singleton. reflexivity.
    + intros Hin. contradiction.
Qed.

(** When the second handler looks the number up after the first is past
    its recording, it does not record. *)
Lemma late_lookup post p p' :
  pairOK c0 num p -> settled (pc (first p)) = true ->
  (stage (pc (second p)) <= 3)%nat \/ settled (pc (second p)) = true ->
  recd (second p) = 0%nat ->
  runPair conn1 err1 conn2 err2 post p = Some p' ->
  recd (second p') = 0%nat.
Proof.
  revert p. induction post as [|who rest IH]; intros p Hi Hs Hst Hr H;
    simpl in H.
  - inversion H; subst. exact Hr.
  - destruct (stepPair conn1 err1 conn2 err2 who p) as [q|] eqn:E;
      [|discriminate].
    pose proof (stepPair_inv who p q Hi E) as Hq.
    unfold pairOK in Hi.
    assert (Hin : num ∈ dedup (shared p)).
    { destruct Hi as (_ & _ & _ & _ & _ & _ & _ & I8). apply I8. left.
      exact Hs. }
    unfold stepPair in E. destruct (halted2 p); [discriminate|].
    destruct who.
    + destruct (stepTask conn1 err1 (first p) (shared p)) as [[t c]|] eqn:T;
        inversion E; subst; clear E.
      destruct Hi as (I1 & _).
      destruct (stepTask_valid conn1 err1 s1 num Hd1 Hl1 Hp1 Hm _ _ _ _ I1 T)
        as (_ & _ & _ & _ & _ & S6 & _).
      apply (IH _ Hq (S6 Hs) Hst Hr H).
    + destruct (stepTask conn2 err2 (second p) (shared p)) as [[t c]|] eqn:T;
        inversion E; subst; clear E.
      destruct Hi as (_ & I2 & _).
      destruct (stepTask_valid conn2 err2 s2 num Hd2 Hl2 Hp2 Hm _ _ _ _ I2 T)
        as (_ & _ & _ & S4 & _ & S6 & _ & S8 & S9).
      assert (Hnr : pc (second p) <> PcRecord num).
      { intros K. rewrite K in Hst. cbn in Hst.
        destruct Hst as [Hst|Hst]; [lia|discriminate]. }
      destruct S4 as [(R & _)|(K & _)]; [|contradiction].
      apply (IH _ Hq Hs); [|cbn [second]; lia|exact H].
      cbn [second]. destruct Hst as [Hst|Hst]; [|right; apply S6, Hst].
      destruct (Nat.eq_dec (stage (pc (second p))) 3%nat) as [E3|E3].
      * right. destruct I2 as (Hn & _).
        destruct (pc (second p)) as [|n|n|n|n| | |x] eqn:K; cbn in E3;
          try lia. cbn in Hn. subst n.
        rewrite (S9 eq_refl Hin). reflexivity.
      * left. apply S8. lia.
Qed.

End SameNumber.

(** ** The same number twice *)

(** C4 (as stated, refuted). Two connections send the same valid number
    and their handlers interleave so that both look the number up before
    either records it: the second handler calls [RecordUniq] again, after
    the first one did.  And a second submission on the same connection is
    never read: twenty bytes, or two lines, get one length error and
    nothing is echoed or counted. *)
Lemma C4_counterexample :
  let conn := mkConn "1234567890" EOF in
  let p := pairAfter conn None conn None racingSchedule twoTokens in
  let twice := mkConn ("1234567890" +:+ "1234567890") EOF in
  let lines :=
    mkConn ("1234567890" +:+ nlStr +:+ "1234567890" +:+ nlStr) EOF in
  (runPair conn None conn None racingSchedule
     (mkPair twoTokens startTask startTask) = Some p /\
   pc (first p) = PcEnd Returned /\ pc (second p) = PcEnd Returned /\
   events (second p) =
     [EvInc; EvWrite ("1234567890" +:+ nlStr); EvHasValue 1234567890;
      EvRecordUniq 1234567890; EvClose; EvRelease] /\
   countEv isRecordUniq (events (first p)) = 1%nat /\
   countEv isRecordUniq (events (second p)) = 1%nat) /\
  (writes (trace (handleConnection twice None oneToken)) =
     ["ERR Malformed Request: expected length 10, got 20." +:+ nlStr] /\
   countEv isInc (trace (handleConnection twice None oneToken)) = 0%nat) /\
  (writes (trace (handleConnection lines None oneToken)) =
     ["ERR Malformed Request: expected length 10, got 11." +:+ nlStr] /\
   countEv isInc (trace (handleConnection lines None oneToken)) = 0%nat).
Proof. vm_compute. repeat split; reflexivity. Qed.

(** C4 (amended). Two different connections submit the same valid number
    (a connection carries one request).  In every interleaving of the two
    handlers in which both return, each echoes the number (its decimal
    digits and a newline) and increments both totals by one, the dedup set
    ends as the old one with the number added, so it grows by exactly one
    when the number was new, and the number is then logged as unique exactly
    once.  Whenever the second handler looks the number up after the first is
    past its recording, the second does not call [RecordUniq]; this is so
    in particular when the handlers run one after the other, where the
    second submission leaves the set and the log of unique values as the
    first one left them. *)
Theorem C4_same_value_twice_recorded_once :
  forall conn1 conn2 err1 err2 c s1 s2 num,
    delivered conn1 s1 -> len s1 = validLen -> strconv.Atoi s1 = inr num ->
    delivered conn2 s2 -> len s2 = validLen -> strconv.Atoi s2 = inr num ->
    minValue <= num ->
    (allDigits (fmtInt num) = true /\ decimal (fmtInt num) = num) /\
    (forall sched p,
        runPair conn1 err1 conn2 err2 sched (mkPair c startTask startTask)
          = Some p ->
        pc (first p) = PcEnd Returned -> pc (second p) = PcEnd Returned ->
        writes (events (first p)) = [fmtInt num +:+ nlStr] /\
        writes (events (second p)) = [fmtInt num +:+ nlStr] /\
        (countEv isInc (events (first p)) = 1 /\
         countEv isInc (events (second p)) = 1)%nat /\
        totalValid (shared p) = totalValid c + 2 /\
        intervalValid (shared p) = intervalValid c + 2 /\
        dedup (shared p) = {[ num ]} ∪ dedup c /\
        (num ∉ dedup c ->
         size (dedup (shared p)) = S (size (dedup c)) /\
         uniqLog (shared p) = (uniqLog c ++ [num])%list /\
         (1 <= countEv isRecordUniq (events (first p))
               + countEv isRecordUniq (events (second p)) <= 2)%nat) /\
        (num ∈ dedup c ->
         dedup (shared p) = dedup c /\ uniqLog (shared p) = uniqLog c /\
         (countEv isRecordUniq (events (first p))
          + countEv isRecordUniq (events (second p)) = 0)%nat)) /\
    (forall pre post p1 p2,
        runPair conn1 err1 conn2 err2 pre (mkPair c startTask startTask)
          = Some p1 ->
        settled (pc (first p1)) = true ->
        (stage (pc (second p1)) <= 3)%nat ->
        runPair conn1 err1 conn2 err2 post p1 = Some p2 ->
        countEv isRecordUniq (events (second p2)) = 0%nat) /\
    (let r1 := handleConnection conn1 err1 c in
     let r2 := handleConnection conn2 err2 (final r1) in
     exit r1 <> Fatal ->
     writes (trace r2) = [fmtInt num +:+ nlStr] /\ exit r2 <> Fatal /\
     totalValid (final r2) = totalValid (final r1) + 1 /\
     intervalValid (final r2) = intervalValid (final r1) + 1 /\
     countEv isRecordUniq (trace r2) = 0%nat /\
     dedup (final r2) = dedup (final r1) /\
     uniqLog (final r2) = uniqLog (final r1) /\
     (num ∉ dedup c ->
      size (dedup (final r2)) = S (size (dedup c)) /\
      uniqLog (final r2) = (uniqLog c ++ [num])%list /\
      (countEv isRecordUniq (trace r1)
       + countEv isRecordUniq (trace r2) = 1)%nat)).
Proof.
  intros conn1 conn2 err1 err2 c s1 s2 num Hd1 Hl1 Hp1 Hd2 Hl2 Hp2 Hm.
  assert (Hstart : pairOK c num (mkPair c startTask startTask))
    by apply sideInv_start.
  split; [apply fmtInt_digits; unfold minValue in Hm; lia|].
  split; [|split].
  - intros sched p Hrun E1 E2.
    pose proof (runPair_inv conn1 conn2 err1 err2 s1 s2 num c
                  Hd1 Hl1 Hp1 Hd2 Hl2 Hp2 Hm sched _ p Hstart Hrun) as Hi.
    exact (both_returned conn1 conn2 s1 s2 num c
             Hd1 Hl1 Hp1 Hd2 Hl2 Hp2 Hm p Hi E1 E2).
  - intros pre post p1 p2 Hpre Hs Hst Hpost.
    pose proof (runPair_inv conn1 conn2 err1 err2 s1 s2 num c
                  Hd1 Hl1 Hp1 Hd2 Hl2 Hp2 Hm pre _ p1 Hstart Hpre) as Hi.
    assert (Hr : recd (second p1) = 0%nat).
    { destruct Hi as (_ & (_ & _ & _ & _ & R0) & _). apply R0. lia. }
    exact (late_lookup conn1 conn2 err1 err2 s1 s2 num c
             Hd1 Hl1 Hp1 Hd2 Hl2 Hp2 Hm post p1 p2 Hi Hs
             (or_introl Hst) Hr Hpost).
  - intros r1 r2 Hx.
    destruct (accepted_recorded conn1 err1 c s1 num Hd1 Hl1 Hp1 Hm Hx)
      as [Hin Hnew].
    fold r1 in Hin, Hnew.
    destruct (accepted_run conn2 err2 (final r1) s2 num Hd2 Hl2 Hp2 Hm)
      as (Hw & _ & Ht & Hi).
    destruct (accepted_seen conn2 err2 (final r1) s2 num Hd2 Hl2 Hp2 Hm Hin)
      as (He & Hc & Hs & Hu).
    fold r2 in Hw, Ht, Hi, He, Hc, Hs, Hu.
    split; [exact Hw|]. split; [exact He|]. split; [exact Ht|].
    split; [exact Hi|]. split; [exact Hc|]. split; [exact Hs|].
    split; [exact Hu|].
    intros Hn. destruct (Hnew Hn) as (Hs1 & Hu1 & Hc1).
    rewrite Hs, Hu, Hs1, Hu1, Hc, Hc1. repeat split; try reflexivity.
    rewrite size_union by set_solver. rewrite size_singleton. reflexivity.
Qed.

Lemma C4_witness :
  let conn1 := mkConn "0001234567" EOF in
  let conn2 := mkConn "+001234567" EOF in
  let p := pairAfter conn1 None conn2 None racingSchedule twoTokens in
  let pre := [First; First; First; First; First; Second; Second] in
  let post := [Second; Second; Second; First; Second; First] in
  let p1 := pairAfter conn1 None conn2 None pre twoTokens in
  let p2 := pairAfter conn1 None conn2 None (pre ++ post)%list twoTokens in
  let r1 := handleConnection conn1 None twoTokens in
  let r2 := handleConnection conn2 None (final r1) in
  (delivered conn1 "0001234567" /\ len "0001234567" = validLen /\
   strconv.Atoi "0001234567" = inr 1234567 /\
   delivered conn2 "+001234567" /\ len "+001234567" = validLen /\
   strconv.Atoi "+001234567" = inr 1234567 /\
   minValue <= 1234567) /\
  (runPair conn1 None conn2 None racingSchedule
     (mkPair twoTokens startTask startTask) = Some p /\
   pc (first p) = PcEnd Returned /\ pc (second p) = PcEnd Returned /\
   (1234567 ∉ dedup twoTokens) /\
   writes (events (second p)) = [fmtInt 1234567 +:+ nlStr] /\
   totalValid (shared p) = totalValid twoTokens + 2 /\
   size (dedup (shared p)) = S (size (dedup twoTokens)) /\
   uniqLog (shared p) = (uniqLog twoTokens ++ [1234567])%list) /\
  (runPair conn1 None conn2 None pre (mkPair twoTokens startTask startTask)
     = Some p1 /\
   settled (pc (first p1)) = true /\ (stage (pc (second p1)) <= 3)%nat /\
   runPair conn1 None conn2 None post p1 = Some p2 /\
   countEv isRecordUniq (events (second p2)) = 0%nat) /\
  (exit r1 <> Fatal /\
   writes (trace r2) = [fmtInt 1234567 +:+ nlStr] /\
   countEv isRecordUniq (trace r2) = 0%nat /\
   size (dedup (final r2)) = S (size (dedup twoTokens))).
Proof.
  intros conn1 conn2 p pre post p1 p2 r1 r2.
  assert (Hd1 : delivered conn1 "0001234567") by (right; reflexivity).
  assert (Hl1 : len "0001234567" = validLen) by reflexivity.
  assert (Hp1 : strconv.Atoi "0001234567" = inr 1234567) by reflexivity.
  assert (Hd2 : delivered conn2 "+001234567") by (right; reflexivity).
  assert (Hl2 : len "+001234567" = validLen) by reflexivity.
  assert (Hp2 : strconv.Atoi "+001234567" = inr 1234567) by reflexivity.
  assert (Hm : minValue <= 1234567) by (vm_compute; discriminate).
  assert (Hn : 1234567 ∉ dedup twoTokens) by (apply not_elem_of_empty).
  assert (Hrun : runPair conn1 None conn2 None racingSchedule
                   (mkPair twoTokens startTask startTask) = Some p)
    by (vm_compute; reflexivity).
  assert (E1 : pc (first p) = PcEnd Returned) by (vm_compute; reflexivity).
  assert (E2 : pc (second p) = PcEnd Returned) by (vm_compute; reflexivity).
  assert (Hpre : runPair conn1 None conn2 None pre
                   (mkPair twoTokens startTask startTask) = Some p1)
    by (vm_compute; reflexivity).
  assert (Hs : settled (pc (first p1)) = true) by (vm_compute; reflexivity).
  assert (Hst : (stage (pc (second p1)) <= 3)%nat) by (vm_compute; lia).
  assert (Hpost : runPair conn1 None conn2 None post p1 = Some p2)
    by (vm_compute; reflexivity).
  assert (Hx : exit r1 <> Fatal) by (vm_compute; discriminate).
  destruct (C4_same_value_twice_recorded_once conn1 conn2 None None twoTokens
              "0001234567" "+001234567" 1234567
              Hd1 Hl1 Hp1 Hd2 Hl2 Hp2 Hm) as (_ & HB & HC & HA).
  split; [repeat split; assumption|].
  split; [|split].
  - destruct (HB racingSchedule p Hrun E1 E2)
      as (_ & W2 & _ & T & _ & _ & New & _).
    destruct (New Hn) as (Sz & Ul & _).
    repeat split; assumption.
  - pose proof (HC pre post p1 p2 Hpre Hs Hst Hpost) as R.
    repeat split; assumption.
  - destruct (HA Hx) as (W & _ & _ & _ & Rc & _ & _ & New).
    destruct (New Hn) as (Sz & _).
    repeat split; assumption.
Defined.
